(** * protoc-gen-go-http-client: the generator pipeline, embedded and verified

    A shallow embedding of the HTTP client generator of
    getfrontierhq/buf-public-apis (cmd/protoc-gen-go-http-client):

    - the naming policy (generateInterfaceName, generateImplName,
      generatePrivateFieldName),
    - the binding extractor (extractHTTPInfo, extractPathParams),
    - the path compiler (buildPathConstruction, snakeToPascal),
    - the configuration parser (parseClientConfig),
    - the schema collector (extractServices), the grouper (groupServices),
    - the three text templates and the functions that feed them
      (generateService, generateNestedServices, generateRootClient),
    - the driver (Execute).

    Go strings are byte strings: they are modelled by [string], whose
    characters are the bytes.  A Go [error] result is [Err], a run-time panic
    (index or slice out of range) is [Panic]. *)

From Stdlib Require Import Ascii String NArith.
From stdpp Require Import gmap strings list sorting.

Open Scope string_scope.

(* ================================================================== *)
(** * Results of fallible Go code *)
(* ================================================================== *)

Inductive outcome (A : Type) : Type :=
| Ok (a : A)            (* normal return, error result nil *)
| Err (msg : string)    (* a non-nil Go error is returned *)
| Panic (msg : string). (* the goroutine panics *)

Arguments Ok {A} a.
Arguments Err {A} msg.
Arguments Panic {A} msg.

Global Instance outcome_ret : MRet outcome := λ A a, Ok a.
Global Instance outcome_bind : MBind outcome := λ A B f m,
  match m with
  | Ok a => f a
  | Err e => Err e
  | Panic e => Panic e
  end.
Global Instance outcome_fmap : FMap outcome := λ A B f m,
  match m with
  | Ok a => Ok (f a)
  | Err e => Err e
  | Panic e => Panic e
  end.

Definition is_Ok {A} (o : outcome A) : bool :=
  match o with Ok _ => true | _ => false end.
Definition is_Err {A} (o : outcome A) : bool :=
  match o with Err _ => true | _ => false end.

(* ================================================================== *)
(** * The part of Go's standard library the generator calls *)
(* ================================================================== *)

(** Three bytes that cannot be written inside a string literal. *)
Definition tab : string := String (ascii_of_nat 9) "".
Definition nl : string := String (ascii_of_nat 10) "".
Definition dq : string := String (ascii_of_nat 34) "".

(** [s[:n]] and [s[n:]] for [n <= len(s)] (the callers check the bound). *)
Fixpoint str_take (n : nat) (s : string) : string :=
  match n, s with
  | S n', String c s' => String c (str_take n' s')
  | _, _ => ""
  end.

Fixpoint str_drop (n : nat) (s : string) : string :=
  match n, s with
  | S n', String _ s' => str_drop n' s'
  | _, _ => s
  end.

(** [s[lo:hi]] as Go evaluates it: a panic unless [lo <= hi <= len(s)]. *)
Definition slice (s : string) (lo hi : nat) : outcome string :=
  if bool_decide (lo ≤ hi ∧ hi ≤ String.length s)%nat
  then Ok (str_take (hi - lo) (str_drop lo s))
  else Panic "slice bounds out of range".

(** [strings.HasPrefix]. *)
Fixpoint HasPrefix (s pre : string) {struct pre} : bool :=
  match pre, s with
  | "", _ => true
  | String c pre', String d s' => Ascii.eqb c d && HasPrefix s' pre'
  | String _ _, "" => false
  end.

(** [strings.HasSuffix]:
    [len(s) >= len(suffix) && s[len(s)-len(suffix):] == suffix]. *)
Definition HasSuffix (s suffix : string) : bool :=
  bool_decide (String.length suffix ≤ String.length s)%nat &&
  String.eqb (str_drop (String.length s - String.length suffix) s) suffix.

(** [strings.TrimPrefix] and [strings.TrimSuffix]. *)
Definition TrimPrefix (s pre : string) : string :=
  if HasPrefix s pre then str_drop (String.length pre) s else s.

Definition TrimSuffix (s suffix : string) : string :=
  if HasSuffix s suffix
  then str_take (String.length s - String.length suffix) s
  else s.

(** [strings.Index]: the byte offset of the first occurrence of [sub]. *)
Fixpoint Index (s sub : string) : option nat :=
  if HasPrefix s sub then Some 0
  else match s with
       | "" => None
       | String _ s' => S <$> Index s' sub
       end.

(** [strings.Replace(s, old, new, 1)]: only the first occurrence of [old]
    is replaced; [s] is returned unchanged when there is none. *)
Definition Replace1 (s old new : string) : string :=
  match Index s old with
  | Some j => str_take j s ++ new ++ str_drop (j + String.length old) s
  | None => s
  end.

(** [strings.Replace(s, old, new, -1)] for a one-byte [old]. *)
Fixpoint ReplaceAllByte (s : string) (old : ascii) (new : string) : string :=
  match s with
  | "" => ""
  | String c s' =>
      (if Ascii.eqb c old then new else String c "") ++ ReplaceAllByte s' old new
  end.

(** [strings.Split(s, sep)] for a one-byte separator (every call of the
    generator splits on ".", "_" or ":"); the result is never empty. *)
Fixpoint Split (s : string) (sep : ascii) : list string :=
  match s with
  | "" => [""]
  | String c s' =>
      if Ascii.eqb c sep then "" :: Split s' sep
      else match Split s' sep with
           | part :: parts => String c part :: parts
           | [] => [String c ""]
           end
  end.

(** [strings.SplitN(s, sep, 2)] for a one-byte separator: split at the
    first occurrence only. *)
Definition SplitN2 (s : string) (sep : ascii) : list string :=
  match Index s (String sep "") with
  | Some j => [str_take j s; str_drop (S j) s]
  | None => [s]
  end.

(** [strings.Join]. *)
Fixpoint Join (elems : list string) (sep : string) : string :=
  match elems with
  | [] => ""
  | [e] => e
  | e :: rest => e ++ sep ++ Join rest sep
  end.

(** ASCII case mapping of one byte. *)
Definition upperByte (c : ascii) : ascii :=
  if Ascii.leb "a" c && Ascii.leb c "z"
  then ascii_of_N (N_of_ascii c - 32) else c.

Definition lowerByte (c : ascii) : ascii :=
  if Ascii.leb "A" c && Ascii.leb c "Z"
  then ascii_of_N (N_of_ascii c + 32) else c.

Definition isASCII (c : ascii) : bool := (N_of_ascii c <? 128)%N.

Fixpoint map_bytes (f : ascii → ascii) (s : string) : string :=
  match s with
  | "" => ""
  | String c s' => String (f c) (map_bytes f s')
  end.

(** U+FFFD in UTF-8, which Go substitutes for a byte that is not valid
    UTF-8 when it maps a string rune by rune. *)
Definition RuneError : string :=
  String (ascii_of_nat 239) (String (ascii_of_nat 191) (String (ascii_of_nat 189) "")).

(** [strings.ToUpper] and [strings.ToLower].  Exact on ASCII strings (all
    protobuf identifiers are) and on one-byte strings, which is what
    [s[:1]] yields: a lone byte of 0x80 or more is invalid UTF-8 and comes
    back as U+FFFD.  On longer strings the bytes of 0x80 and more are
    left as they are, where Go maps the runes by the Unicode case tables
    and replaces the invalid bytes: this is not modelled, and a theorem
    that depends on the value on a whole string assumes ASCII bytes. *)
Definition ToUpper (s : string) : string :=
  match s with
  | String c "" => if isASCII c then String (upperByte c) "" else RuneError
  | _ => map_bytes upperByte s
  end.

Definition ToLower (s : string) : string :=
  match s with
  | String c "" => if isASCII c then String (lowerByte c) "" else RuneError
  | _ => map_bytes lowerByte s
  end.

(** [strings.TrimSpace]: leading and trailing white space, as defined by
    Unicode, is removed.  The white-space runes are the six ASCII ones,
    U+0085, U+00A0, U+1680, U+2000..U+200A, U+2028, U+2029, U+202F, U+205F
    and U+3000; [spaceLen s] is the length of the encoding of such a rune at
    the front of [s], or 0. *)
Definition isAsciiSpace (c : ascii) : bool :=
  let n := nat_of_ascii c in
  bool_decide (n = 9 ∨ n = 10 ∨ n = 11 ∨ n = 12 ∨ n = 13 ∨ n = 32).

Definition space3 (a b c : nat) : bool :=
  bool_decide
    ((a = 225 ∧ b = 154 ∧ c = 128) ∨
     (a = 226 ∧ b = 128 ∧ ((128 ≤ c ≤ 138)%nat ∨ c = 168 ∨ c = 169 ∨ c = 175)) ∨
     (a = 226 ∧ b = 129 ∧ c = 159) ∨
     (a = 227 ∧ b = 128 ∧ c = 128)).

Definition space2 (a b : nat) : bool :=
  bool_decide (a = 194 ∧ (b = 133 ∨ b = 160)).

Fixpoint trimLeftSpace (s : string) : string :=
  match s with
  | String c1 s1 =>
      if isAsciiSpace c1 then trimLeftSpace s1
      else match s1 with
           | String c2 s2 =>
               if space2 (nat_of_ascii c1) (nat_of_ascii c2) then trimLeftSpace s2
               else match s2 with
                    | String c3 s3 =>
                        if space3 (nat_of_ascii c1) (nat_of_ascii c2) (nat_of_ascii c3)
                        then trimLeftSpace s3 else s
                    | "" => s
                    end
           | "" => s
           end
  | "" => ""
  end.

(** The same scan on the reversed string, for the trailing space: the
    bytes of a rune are met last byte first. *)
Fixpoint trimLeftSpaceRev (s : string) : string :=
  match s with
  | String c1 s1 =>
      if isAsciiSpace c1 then trimLeftSpaceRev s1
      else match s1 with
           | String c2 s2 =>
               if space2 (nat_of_ascii c2) (nat_of_ascii c1) then trimLeftSpaceRev s2
               else match s2 with
                    | String c3 s3 =>
                        if space3 (nat_of_ascii c3) (nat_of_ascii c2) (nat_of_ascii c1)
                        then trimLeftSpaceRev s3 else s
                    | "" => s
                    end
           | "" => s
           end
  | "" => ""
  end.

Definition TrimSpace (s : string) : string :=
  String.rev (trimLeftSpaceRev (String.rev (trimLeftSpace s))).

(** Go's [<] on strings is the lexicographic order of the bytes. *)
Definition str_lt (a b : string) : bool := String.ltb a b.

(* ================================================================== *)
(** * The data model (types) *)
(* ================================================================== *)

(** ClientConfig holds the parsed configuration of the [client=] parameter. *)
Record ClientConfig := {
  RootPackage : string;
  OutputSubdir : string;
  ClientName : string;
  GoModulePath : string;
  HTTPClientPkg : string;
}.

(** HTTPInfo: the parsed google.api.http annotation. *)
Record HTTPInfo := {
  HTTP_Method : string;
  HTTP_Path : string;
  HTTP_PathParams : list string;
}.

(** Method: one RPC of a service; [HTTP] is a pointer, nil when absent. *)
Record Method := {
  Method_Name : string;
  Method_InputType : string;
  Method_OutputType : string;
  Method_HTTP : option HTTPInfo;
}.

Record Service := {
  Service_Name : string;
  Service_Package : string;
  Service_GoPackage : string;
  Service_Methods : list Method;
}.

Global Instance HTTPInfo_eq_dec : EqDecision HTTPInfo.
Proof. solve_decision. Defined.
Global Instance Method_eq_dec : EqDecision Method.
Proof. solve_decision. Defined.
Global Instance Service_eq_dec : EqDecision Service.
Proof. solve_decision. Defined.

(* ================================================================== *)
(** * The naming policy *)
(* ================================================================== *)

Definition generateInterfaceName (serviceName : string) : string :=
  serviceName.

Definition generateImplName (serviceName : string) : string :=
  serviceName ++ "Impl".

(** [name[:1]] and [name[1:]] are in range here: the caller has checked
    [len(name) > 0]. *)
Definition generatePrivateFieldName (serviceName : string) : string :=
  if String.eqb serviceName "" then ""
  else
    let name := serviceName in
    let name := TrimSuffix name "Service" in
    let name := TrimSuffix name "Client" in
    if bool_decide (0 < String.length name)%nat
    then ToLower (str_take 1 name) ++ str_drop 1 name
    else name.


(* ================================================================== *)
(** * The schema as protoc-gen-star hands it over *)
(* ================================================================== *)

(** The [pattern] oneof of a google.api.http rule ([HttpRule.GetPattern()]):
    one of the five verbs with its path, a custom pattern, or nothing. *)
Inductive HttpPattern :=
| HttpRule_Get (path : string)
| HttpRule_Put (path : string)
| HttpRule_Post (path : string)
| HttpRule_Delete (path : string)
| HttpRule_Patch (path : string)
| HttpRule_Custom (kind path : string)
| HttpRule_unset.

(** The options of a method descriptor: [GetOptions()] is nil ([None] below)
    or a message that may carry the google.api.http extension.  The
    extension is declared with type [*HttpRule], so the type assertion of
    extractHTTPInfo cannot fail and its error branch has no input. *)
Record MethodOptions := {
  Options_Http : option HttpPattern;
}.

Record PgsMethod := {
  pgs_Method_Name : string;
  pgs_Method_Input : string;
  pgs_Method_Output : string;
  pgs_Method_Options : option MethodOptions;
}.

Record PgsService := {
  pgs_Service_Name : string;
  pgs_Service_Methods : list PgsMethod;
}.

Record PgsFile := {
  File_Name : string;          (* file.Name() *)
  File_Package : string;       (* file.Package().ProtoName() *)
  File_InputPathBase : string; (* file.InputPath().Base() *)
  File_Services : list PgsService;
}.

Global Instance HttpPattern_eq_dec : EqDecision HttpPattern.
Proof. solve_decision. Defined.
Global Instance MethodOptions_eq_dec : EqDecision MethodOptions.
Proof. solve_decision. Defined.
Global Instance PgsMethod_eq_dec : EqDecision PgsMethod.
Proof. solve_decision. Defined.
Global Instance PgsService_eq_dec : EqDecision PgsService.
Proof. solve_decision. Defined.
Global Instance PgsFile_eq_dec : EqDecision PgsFile.
Proof. solve_decision. Defined.

(** [l[i]]: a panic when [i] is out of range. *)
Definition index_at {A} (l : list A) (i : nat) : outcome A :=
  match l !! i with
  | Some x => Ok x
  | None => Panic "index out of range"
  end.

(** A [for ... range] loop whose body may fail: the first failure ends it. *)
Fixpoint forEach {A S} (body : S → A → outcome S) (s : S) (l : list A)
  : outcome S :=
  match l with
  | [] => Ok s
  | x :: l' => s' ← body s x; forEach body s' l'
  end.

(* ================================================================== *)
(** * The binding extractor *)
(* ================================================================== *)

(** The regular expression [\{([^}]+)\}].

    [closeBrace s] reads the longest run of bytes other than the closing
    brace at the front of [s]; it succeeds when a closing brace follows, and
    returns the run and what comes after that brace. *)
Fixpoint closeBrace (s : string) : option (string * string) :=
  match s with
  | "" => None
  | String c s' =>
      if Ascii.eqb c "}" then Some ("", s')
      else '(p, rest) ← closeBrace s'; Some (String c p, rest)
  end.

(** A match anchored at the front of [s]: an opening brace, one byte or more
    other than the closing brace, the closing brace.  The result is the
    capture group and the text after the match. *)
Definition matchPlaceholder (s : string) : option (string * string) :=
  match s with
  | String c s' =>
      if Ascii.eqb c "{" then
        '(p, rest) ← closeBrace s';
        if String.eqb p "" then None else Some (p, rest)
      else None
  | "" => None
  end.

(** The leftmost match in [s]: the text before it, the capture group, the
    text after it. *)
Fixpoint nextMatch (s : string) : option (string * string * string) :=
  match matchPlaceholder s with
  | Some (p, rest) => Some ("", p, rest)
  | None =>
      match s with
      | "" => None
      | String c s' => '(u, p, rest) ← nextMatch s'; Some (String c u, p, rest)
      end
  end.

(** [re.FindAllStringSubmatch(path, -1)]: the successive matches, none
    overlapping the one before; each is the pair of the whole match and the
    capture group.  A match consumes at least three bytes, so
    [String.length path] rounds are enough. *)
Fixpoint findAll (fuel : nat) (s : string) : list (list string) :=
  match fuel with
  | 0 => []
  | S fuel' =>
      match nextMatch s with
      | Some (_, p, rest) => ["{" ++ p ++ "}"; p] :: findAll fuel' rest
      | None => []
      end
  end.

Definition FindAllStringSubmatch (path : string) : list (list string) :=
  findAll (String.length path) path.

(** The loop appends [match[1]] for every match with [len(match) > 1]. *)
Definition extractPathParams (path : string) : list string :=
  let matches := FindAllStringSubmatch path in
  omap (λ m, if bool_decide (1 < length m)%nat then m !! 1%nat else None) matches.

Definition extractHTTPInfo (method : PgsMethod) : outcome HTTPInfo :=
  match pgs_Method_Options method with
  | None => Err "no options"
  | Some opts =>
      match Options_Http opts with
      | None => Err "no http annotation"
      | Some pattern =>
          verb_path ←
            match pattern with
            | HttpRule_Get p => Ok ("GET", p)
            | HttpRule_Post p => Ok ("POST", p)
            | HttpRule_Put p => Ok ("PUT", p)
            | HttpRule_Delete p => Ok ("DELETE", p)
            | HttpRule_Patch p => Ok ("PATCH", p)
            | _ => Err "unsupported HTTP method pattern"
            end;
          Ok {| HTTP_Method := verb_path.1;
                HTTP_Path := verb_path.2;
                HTTP_PathParams := extractPathParams verb_path.2 |}
      end
  end.

(** snakeToPascal: [part[:1]] and [part[1:]] are guarded by [len(part) > 0]. *)
Definition snakeToPascal (s : string) : string :=
  let parts := Split s "_" in
  let parts :=
    map (λ part, if bool_decide (0 < String.length part)%nat
                 then ToUpper (str_take 1 part) ++ str_drop 1 part
                 else part) parts in
  Join parts "".

(* ================================================================== *)
(** * The path compiler *)
(* ================================================================== *)

(** [fmt.Sprintf("fmt.Sprintf(\"%s\", %s)", template, strings.Join(args, ", "))]
    after the two loops over [params]. *)
Definition buildPathConstruction (path : string) (params : list string) : string :=
  let template :=
    foldl (λ template param, Replace1 template ("{" ++ param ++ "}") "%s")
          path params in
  let args :=
    foldl (λ args param, (args ++ ["req." +:+ snakeToPascal param])%list) [] params in
  "fmt.Sprintf(" ++ dq ++ template ++ dq ++ ", " ++ Join args ", " ++ ")".

(** computeImportSuffix. *)
Definition computeImportSuffix (pkg rootPkg : string) : string :=
  if String.eqb pkg rootPkg then ""
  else if negb (HasPrefix pkg (rootPkg ++ ".")) then ""
  else
    let suffix := TrimPrefix pkg (rootPkg ++ ".") in
    "/" ++ ReplaceAllByte suffix "." "/".

(* ================================================================== *)
(** * The configuration parser *)
(* ================================================================== *)

(** [pgs.Parameters] is a [map[string]string]; [Str] is the value of a key,
    the empty string when the key is missing. *)
Definition Str (params : gmap string string) (name : string) : string :=
  default "" (params !! name).

Definition parseClientConfig (params : gmap string string) : outcome ClientConfig :=
  let clientParam := Str params "client" in
  if String.eqb clientParam "" then
    Err "no client configuration specified (use: client=package:subdir)"
  else
    let parts := SplitN2 clientParam ":" in
    if negb (bool_decide (length parts = 2%nat)) then
      Err ("invalid client format: " ++ clientParam ++ " (expected: package:subdir)")
    else
      part0 ← index_at parts 0;
      part1 ← index_at parts 1;
      let rootPackage := TrimSpace part0 in
      let outputSubdir := TrimSpace part1 in
      let packageParts := Split rootPackage "." in
      lastPart ← index_at packageParts (length packageParts - 1);
      initial ← slice lastPart 0 1;
      rest ← slice lastPart 1 (String.length lastPart);
      let clientName := ToUpper initial ++ rest ++ "Client" in
      let goModulePath := Str params "go_module_path" in
      let goModulePath :=
        if String.eqb goModulePath ""
        then "github.com/getfrontierhq/schema/pkg/go" else goModulePath in
      let httpClientPkg := goModulePath ++ "/" ++ outputSubdir ++ "/http" in
      Ok {| RootPackage := rootPackage;
            OutputSubdir := outputSubdir;
            ClientName := clientName;
            GoModulePath := goModulePath;
            HTTPClientPkg := httpClientPkg |}.

(* ================================================================== *)
(** * Library code of which only the contract matters *)
(* ================================================================== *)

(** What [sort.Slice] requires of its [less]: a strict weak order. *)
Record StrictWeak {A} (less : A → A → bool) : Prop := {
  less_irrefl : ∀ x, less x x = false;
  less_trans : ∀ x y z, less x y = true → less y z = true → less x z = true;
  less_incomp : ∀ x y z, less x y = false → less y z = false → less x z = false;
}.

(** [sort.Slice] is not a stable sort and its documentation promises no
    more than a sorted rearrangement; [filepath.Join] serves only to build
    file names.  The generator is verified against every implementation
    that meets these contracts. *)
Class GoLib := {
  sort_Slice : ∀ {A}, (A → A → bool) → list A → list A;
  sort_Slice_perm : ∀ A (less : A → A → bool) l, sort_Slice less l ≡ₚ l;
  sort_Slice_sorted : ∀ A (less : A → A → bool) l,
    StrictWeak less → StronglySorted (λ x y, less y x = false) (sort_Slice less l);
  filepath_Join : list string → string;
}.

(** [sort.Strings]. *)
Definition sort_Strings `{GoLib} (l : list string) : list string :=
  sort_Slice str_lt l.

(* ================================================================== *)
(** * The schema collector *)
(* ================================================================== *)

(** The body of the loop over [svc.Methods()]: the binding is stored only
    when extractHTTPInfo returned no error. *)
Definition collectMethod (method : PgsMethod) : Method :=
  let m := {| Method_Name := pgs_Method_Name method;
              Method_InputType := pgs_Method_Input method;
              Method_OutputType := pgs_Method_Output method;
              Method_HTTP := None |} in
  match extractHTTPInfo method with
  | Ok httpInfo =>
      {| Method_Name := Method_Name m;
         Method_InputType := Method_InputType m;
         Method_OutputType := Method_OutputType m;
         Method_HTTP := Some httpInfo |}
  | _ => m
  end.

Definition method_less (a b : Method) : bool :=
  str_lt (Method_Name a) (Method_Name b).

(** The body of the loop over [file.Services()]. *)
Definition collectService `{GoLib} (file : PgsFile) (svc : PgsService) : Service :=
  let methods :=
    foldl (λ methods method, (methods ++ [collectMethod method])%list)
          [] (pgs_Service_Methods svc) in
  {| Service_Name := pgs_Service_Name svc;
     Service_Package := File_Package file;
     Service_GoPackage := File_InputPathBase file;
     Service_Methods := sort_Slice method_less methods |}.

Definition service_less (a b : Service) : bool :=
  if String.eqb (Service_Package a) (Service_Package b)
  then str_lt (Service_Name a) (Service_Name b)
  else str_lt (Service_Package a) (Service_Package b).

Definition extractServices `{GoLib} (files : list PgsFile) (rootPackage : string)
  : list Service :=
  let services :=
    foldl (λ services file,
             let pkg := File_Package file in
             if negb (HasPrefix pkg rootPackage) then services
             else foldl (λ services svc, (services ++ [collectService file svc])%list)
                        services (File_Services file))
          [] files in
  sort_Slice service_less services.

(* ================================================================== *)
(** * The namespace grouper *)
(* ================================================================== *)

(** [nested[category] = append(nested[category], svc)]: a missing key reads
    as the nil slice. *)
Definition appendTo (nested : gmap string (list Service)) (category : string)
    (svc : Service) : gmap string (list Service) :=
  <[category := (default [] (nested !! category) ++ [svc])%list]> nested.

Definition groupServices (services : list Service) (rootPkg : string)
  : outcome (list Service * gmap string (list Service)) :=
  forEach
    (λ '(topLevel, nested) svc,
       if String.eqb (Service_Package svc) rootPkg then
         Ok ((topLevel ++ [svc])%list, nested)
       else
         let parts := Split (Service_Package svc) "." in
         if bool_decide (length (Split rootPkg ".") < length parts)%nat then
           let categoryIndex := length (Split rootPkg ".") in
           category ← index_at parts categoryIndex;
           Ok (topLevel, appendTo nested category svc)
         else Ok (topLevel, nested))
    ([], ∅) services.

(* ================================================================== *)
(** * What the templates are executed on *)
(* ================================================================== *)

Record MethodTemplateData := {
  MTD_Name : string;
  MTD_InputType : string;
  MTD_OutputType : string;
  MTD_HTTP : option HTTPInfo;
  MTD_PathConstruction : string;
}.

Record ServiceTemplateData := {
  STD_ServiceName : string;
  STD_ImportSuffix : string;
  STD_HasFmt : bool;
  STD_Methods : list MethodTemplateData;
  STD_HTTPClientPkg : string;
  STD_ProtoPackage : string;
  STD_InterfaceName : string;
  STD_ImplName : string;
  STD_PrivateField : string;
}.

Record NestedServicesTemplateData := {
  NSTD_Category : string;
  NSTD_CategoryLower : string;
  NSTD_ImportSuffix : string;
  NSTD_HasFmt : bool;
  NSTD_Services : list ServiceTemplateData;
  NSTD_HTTPClientPkg : string;
  NSTD_ProtoPackage : string;
  NSTD_InterfaceName : string;
  NSTD_ImplName : string;
  NSTD_PrivateField : string;
}.

Record ServiceInfo := {
  SI_FieldName : string;
  SI_TypeName : string;
  SI_ImplName : string;
  SI_InterfaceName : string;
  SI_PrivateField : string;
}.

Record NestedClientInfo := {
  NCI_FieldName : string;
  NCI_TypeName : string;
  NCI_ImplName : string;
  NCI_InterfaceName : string;
  NCI_PrivateField : string;
  NCI_Services : list ServiceInfo;
}.

Record RootClientTemplateData := {
  RCTD_ClientName : string;
  RCTD_HTTPClientPkg : string;
  RCTD_InterfaceName : string;
  RCTD_ImplName : string;
  RCTD_TopLevelServices : list ServiceInfo;
  RCTD_NestedClients : list NestedClientInfo;
}.

(* ================================================================== *)
(** * The three templates, as text/template executes them *)
(* ================================================================== *)

(** The pieces of a template are written out in order. *)
Definition cat (pieces : list string) : string := foldr String.append "" pieces.

(** [{{range}}]: the body is executed on each element in turn; an error in
    a body ends the execution. *)
Definition renderRange {A} (body : A → outcome string) (l : list A)
  : outcome string :=
  forEach (λ out x, s ← body x; Ok (out ++ s)) "" l.

(** [.HTTP.Method] and [.HTTP.Path] on a nil [*HTTPInfo] are an execution
    error of text/template. *)
Definition field_HTTP (m : MethodTemplateData) : outcome HTTPInfo :=
  match MTD_HTTP m with
  | Some http => Ok http
  | None => Err "nil pointer evaluating *main.HTTPInfo.Method"
  end.

(** The body of [{{range .Methods}}] inside the interface declaration. *)
Definition renderMethodDecl (m : MethodTemplateData) : outcome string :=
  http ← field_HTTP m;
  Ok (cat [tab; "// "; MTD_Name m; " makes a "; HTTP_Method http;
           " request to "; HTTP_Path http; nl;
           tab; MTD_Name m; "(ctx context.Context, req *pb."; MTD_InputType m;
           ") (*pb."; MTD_OutputType m; ", error)"; nl]).

(** The verb dispatch of a generated method:
    [{{if eq .HTTP.Method "POST"}}...Post...{{else}}...Get...{{end}}]. *)
Definition renderDispatch (http : HTTPInfo) : string :=
  if String.eqb (HTTP_Method http) "POST"
  then cat ["err := s.client.Post(ctx, path, req, resp)"; nl; tab]
  else cat ["err := s.client.Get(ctx, path, resp)"; nl; tab].

(** The path of a generated method:
    [{{if .PathConstruction}}...{{else}}...{{end}}]; an empty string is
    false. *)
Definition renderPath (m : MethodTemplateData) (http : HTTPInfo) : string :=
  if negb (String.eqb (MTD_PathConstruction m) "")
  then cat ["path := "; MTD_PathConstruction m; nl; tab]
  else cat ["path := "; dq; HTTP_Path http; dq; nl; tab].

(** The body of the second [{{range .Methods}}]: one implementation method
    of the struct [implName]. *)
Definition renderMethodImpl (implName : string) (m : MethodTemplateData)
  : outcome string :=
  http ← field_HTTP m;
  Ok (cat [nl;
           "// "; MTD_Name m; " makes a "; HTTP_Method http;
           " request to "; HTTP_Path http; nl;
           "func (s *"; implName; ") "; MTD_Name m;
           "(ctx context.Context, req *pb."; MTD_InputType m;
           ") (*pb."; MTD_OutputType m; ", error) {"; nl;
           tab; "resp := &pb."; MTD_OutputType m; "{}"; nl;
           tab; renderPath m http;
           renderDispatch http;
           "return resp, err"; nl;
           "}"; nl]).

(** The import block shared by the service and the nested template. *)
Definition renderImports (hasFmt : bool) (httpClientPkg protoPackage : string)
  : string :=
  cat ["package client"; nl;
       nl;
       "import ("; nl;
       tab; dq; "context"; dq; nl;
       tab; (if hasFmt then cat [dq; "fmt"; dq; nl; tab] else ""); nl;
       tab; dq; httpClientPkg; dq; nl;
       tab; "pb "; dq; protoPackage; dq; nl;
       ")"; nl;
       nl].

(** The interface, the struct and the methods of one service. *)
Definition renderServiceBody (interfaceName implName serviceName : string)
    (methods : list MethodTemplateData) : outcome string :=
  decls ← renderRange renderMethodDecl methods;
  impls ← renderRange (renderMethodImpl implName) methods;
  Ok (cat ["// "; interfaceName; " defines the interface for "; serviceName; nl;
           "type "; interfaceName; " interface {"; nl;
           decls; "}"; nl;
           nl;
           "// "; implName; " provides "; serviceName; " operations"; nl;
           "type "; implName; " struct {"; nl;
           tab; interfaceName; nl;
           tab; "client *http.HTTPClient"; nl;
           "}"; nl;
           nl;
           impls]).

(** serviceFileTemplate. *)
Definition serviceFileTemplate (data : ServiceTemplateData) : outcome string :=
  body ← renderServiceBody (STD_InterfaceName data) (STD_ImplName data)
           (STD_ServiceName data) (STD_Methods data);
  Ok (renderImports (STD_HasFmt data) (STD_HTTPClientPkg data)
        (STD_ProtoPackage data) ++ body).

(** nestedServicesFileTemplate. *)
Definition nestedServicesFileTemplate (data : NestedServicesTemplateData)
  : outcome string :=
  let getters_decl :=
    cat (map (λ svc, cat [tab; "Get"; STD_ServiceName svc; "() ";
                          STD_InterfaceName svc; nl]) (NSTD_Services data)) in
  let fields :=
    cat (map (λ svc, cat [tab; STD_PrivateField svc; " *"; STD_ImplName svc; nl])
             (NSTD_Services data)) in
  let getters :=
    cat (map (λ svc, cat [nl;
                          "// Get"; STD_ServiceName svc; " returns the ";
                          STD_ServiceName svc; nl;
                          "func (c *"; NSTD_ImplName data; ") Get";
                          STD_ServiceName svc; "() "; STD_InterfaceName svc;
                          " {"; nl;
                          tab; "return c."; STD_PrivateField svc; nl;
                          "}"; nl]) (NSTD_Services data)) in
  services ←
    renderRange (λ svc,
      body ← renderServiceBody (STD_InterfaceName svc) (STD_ImplName svc)
               (STD_ServiceName svc) (STD_Methods svc);
      Ok (cat [nl; body; nl])) (NSTD_Services data);
  Ok (cat [renderImports (NSTD_HasFmt data) (NSTD_HTTPClientPkg data)
             (NSTD_ProtoPackage data);
           "// "; NSTD_InterfaceName data; " defines the interface for ";
           NSTD_Category data; " services"; nl;
           "type "; NSTD_InterfaceName data; " interface {"; nl;
           getters_decl; "}"; nl;
           nl;
           "// "; NSTD_ImplName data; " groups "; NSTD_CategoryLower data;
           " services"; nl;
           "type "; NSTD_ImplName data; " struct {"; nl;
           tab; NSTD_InterfaceName data; nl;
           fields; "}"; nl;
           nl;
           getters; nl;
           nl;
           services]).

(** rootClientTemplate; no action of it can fail. *)
Definition rootClientTemplate (data : RootClientTemplateData) : string :=
  let implName := RCTD_ImplName data in
  let top := RCTD_TopLevelServices data in
  let nested := RCTD_NestedClients data in
  let getter_decl (fieldName interfaceName : string) :=
    cat [tab; "Get"; fieldName; "() "; interfaceName; nl] in
  let field (privateField impl : string) :=
    cat [tab; privateField; " *"; impl; nl] in
  let getter (fieldName typeName interfaceName privateField : string) :=
    cat [nl;
         "// Get"; fieldName; " returns the "; typeName; nl;
         "func (c *"; implName; ") Get"; fieldName; "() "; interfaceName;
         " {"; nl;
         tab; "return c."; privateField; nl;
         "}"; nl] in
  cat ["package client"; nl;
       nl;
       "import ("; nl;
       tab; dq; "net/http"; dq; nl;
       tab; dq; "time"; dq; nl;
       nl;
       tab; "httpclient "; dq; RCTD_HTTPClientPkg data; dq; nl;
       ")"; nl;
       nl;
       "// "; RCTD_InterfaceName data;
       " defines the interface for the root HTTP client"; nl;
       "type "; RCTD_InterfaceName data; " interface {"; nl;
       cat (map (λ s, getter_decl (SI_FieldName s) (SI_InterfaceName s)) top);
       cat (map (λ c, getter_decl (NCI_FieldName c) (NCI_InterfaceName c)) nested);
       "}"; nl;
       nl;
       "// "; implName; " is the root HTTP client implementation"; nl;
       "type "; implName; " struct {"; nl;
       tab; RCTD_InterfaceName data; nl;
       tab; "httpClient *httpclient.HTTPClient"; nl;
       cat (map (λ s, field (SI_PrivateField s) (SI_ImplName s)) top);
       cat (map (λ c, field (NCI_PrivateField c) (NCI_ImplName c)) nested);
       "}"; nl;
       nl;
       cat (map (λ s, getter (SI_FieldName s) (SI_TypeName s)
                        (SI_InterfaceName s) (SI_PrivateField s)) top); nl;
       cat (map (λ c, getter (NCI_FieldName c) (NCI_TypeName c)
                        (NCI_InterfaceName c) (NCI_PrivateField c)) nested); nl;
       nl;
       "// New"; RCTD_ClientName data; " creates a new HTTP client"; nl;
       "//"; nl;
       "// Parameters:"; nl;
       "//   - baseURL: API base URL (e.g., "; dq;
       "https://data.sandbox.iniciador.com.br"; dq; ")"; nl;
       "//   - token: Bearer token (empty string for unauthenticated client)"; nl;
       "//"; nl;
       "// The client is immutable - to change the token, create a new client instance.";
       nl;
       "func New"; RCTD_ClientName data; "(baseURL, token string) *"; implName;
       " {"; nl;
       tab; "httpClient := &httpclient.HTTPClient{"; nl;
       tab; tab; "BaseURL:    baseURL,"; nl;
       tab; tab; "HTTPClient: &http.Client{Timeout: 30 * time.Second},"; nl;
       tab; tab; "Token:      token,"; nl;
       tab; "}"; nl;
       nl;
       tab; "return &"; implName; "{"; nl;
       tab; tab; "httpClient: httpClient,"; nl;
       cat (map (λ s, cat [tab; tab; SI_PrivateField s; ": &"; SI_ImplName s;
                           "{client: httpClient},"; nl]) top);
       cat (map (λ c, cat [tab; tab; NCI_PrivateField c; ": &"; NCI_ImplName c;
                           "{"; nl;
                           cat (map (λ s, cat [tab; tab; tab; SI_PrivateField s;
                                               ": &"; SI_ImplName s;
                                               "{client: httpClient},"; nl])
                                    (NCI_Services c));
                           tab; tab; "},"; nl]) nested);
       tab; "}"; nl;
       "}"; nl].

(* ================================================================== *)
(** * From services to files *)
(* ================================================================== *)

(** [fmt.Errorf("execute template: %w", err)]. *)
Definition wrapErr {A} (prefix : string) (o : outcome A) : outcome A :=
  match o with
  | Err e => Err (prefix ++ e)
  | _ => o
  end.

(** The loop over [svc.Methods] of generateService and of
    generateNestedServices: a method without binding is skipped; the others
    get their template data, and a path construction when the binding has
    path parameters, in which case the file needs package fmt.  The loop
    state is the pair of the fmt flag and the methods appended so far. *)
Definition processMethods (hasFmt : bool) (methods : list Method)
  : bool * list MethodTemplateData :=
  foldl (λ '(hasFmt, out) m,
           match Method_HTTP m with
           | None => (hasFmt, out)
           | Some http =>
               let methodData pc :=
                 {| MTD_Name := Method_Name m;
                    MTD_InputType := Method_InputType m;
                    MTD_OutputType := Method_OutputType m;
                    MTD_HTTP := Some http;
                    MTD_PathConstruction := pc |} in
               if bool_decide (0 < length (HTTP_PathParams http))%nat
               then (true,
                     (out ++ [methodData (buildPathConstruction (HTTP_Path http)
                                            (HTTP_PathParams http))])%list)
               else (hasFmt, (out ++ [methodData ""])%list)
           end)
        (hasFmt, []) methods.

(** The proto package path: [fmt.Sprintf("%s/%s%s", ...)]. *)
Definition protoPackagePath (cfg : ClientConfig) (importSuffix : string) : string :=
  GoModulePath cfg ++ "/" ++ ReplaceAllByte (RootPackage cfg) "." "/" ++ importSuffix.

Definition serviceTemplateData (svc : Service) (cfg : ClientConfig)
  : ServiceTemplateData :=
  let importSuffix := computeImportSuffix (Service_Package svc) (RootPackage cfg) in
  let protoPackage := protoPackagePath cfg importSuffix in
  let '(hasFmt, methods) := processMethods false (Service_Methods svc) in
  {| STD_ServiceName := Service_Name svc;
     STD_ImportSuffix := importSuffix;
     STD_HasFmt := hasFmt;
     STD_Methods := methods;
     STD_HTTPClientPkg := HTTPClientPkg cfg;
     STD_ProtoPackage := protoPackage;
     STD_InterfaceName := generateInterfaceName (Service_Name svc);
     STD_ImplName := generateImplName (Service_Name svc);
     STD_PrivateField := generatePrivateFieldName (Service_Name svc) |}.

(** generateService: the constant template parses; only its execution can
    return an error. *)
Definition generateService (svc : Service) (cfg : ClientConfig) : outcome string :=
  wrapErr "execute template: " (serviceFileTemplate (serviceTemplateData svc cfg)).

(** [strings.ToUpper(category[:1]) + category[1:]]: a panic on the empty
    category. *)
Definition capitalize (category : string) : outcome string :=
  initial ← slice category 0 1;
  rest ← slice category 1 (String.length category);
  Ok (ToUpper initial ++ rest).

Definition nestedServicesTemplateData (categoryCapitalized category : string)
    (services : list Service) (cfg : ClientConfig) : NestedServicesTemplateData :=
  let importSuffix := "/" ++ category in
  let protoPackage := protoPackagePath cfg importSuffix in
  let '(hasFmt, svcs) :=
    foldl (λ '(hasFmt, out) svc,
             let '(hasFmt, methods) := processMethods hasFmt (Service_Methods svc) in
             (hasFmt,
              (out ++ [{| STD_ServiceName := Service_Name svc;
                          STD_ImportSuffix := "";
                          STD_HasFmt := false;
                          STD_Methods := methods;
                          STD_HTTPClientPkg := "";
                          STD_ProtoPackage := "";
                          STD_InterfaceName := generateInterfaceName (Service_Name svc);
                          STD_ImplName := generateImplName (Service_Name svc);
                          STD_PrivateField :=
                            generatePrivateFieldName (Service_Name svc) |}])%list))
          (false, []) services in
  {| NSTD_Category := categoryCapitalized;
     NSTD_CategoryLower := category;
     NSTD_ImportSuffix := importSuffix;
     NSTD_HasFmt := hasFmt;
     NSTD_Services := svcs;
     NSTD_HTTPClientPkg := HTTPClientPkg cfg;
     NSTD_ProtoPackage := protoPackage;
     NSTD_InterfaceName := generateInterfaceName (categoryCapitalized ++ "Client");
     NSTD_ImplName := generateImplName (categoryCapitalized ++ "Client");
     NSTD_PrivateField := generatePrivateFieldName (categoryCapitalized ++ "Client") |}.

Definition generateNestedServices (category : string) (services : list Service)
    (cfg : ClientConfig) : outcome string :=
  categoryCapitalized ← capitalize category;
  wrapErr "execute template: "
    (nestedServicesFileTemplate
       (nestedServicesTemplateData categoryCapitalized category services cfg)).

(** The order in which one [for ... range] loop over a Go map visits the
    entries: any rearrangement of them, chosen anew by every loop. *)
Record MapOrder := {
  range_order : ∀ {A}, list A → list A;
  range_order_perm : ∀ A (l : list A), range_order l ≡ₚ l;
}.

(** The keys of [nested], as a loop taken in the order [o] meets them. *)
Definition rangeKeys (o : MapOrder) (nested : gmap string (list Service))
  : list string :=
  range_order o (map_to_list nested).*1.

Definition name_less (a b : Service) : bool :=
  str_lt (Service_Name a) (Service_Name b).

Definition serviceInfo (fieldName : string) (svc : Service) : ServiceInfo :=
  {| SI_FieldName := fieldName;
     SI_TypeName := Service_Name svc;
     SI_ImplName := generateImplName (Service_Name svc);
     SI_InterfaceName := generateInterfaceName (Service_Name svc);
     SI_PrivateField := generatePrivateFieldName (Service_Name svc) |}.

Definition generateRootClient `{GoLib} (o : MapOrder) (clientName : string)
    (topLevel : list Service) (nested : gmap string (list Service))
    (cfg : ClientConfig) : outcome string :=
  let topLevelServices :=
    foldl (λ out svc,
             (out ++ [serviceInfo (TrimSuffix (Service_Name svc) "Service") svc])%list)
          [] topLevel in
  let categories :=
    foldl (λ categories category, (categories ++ [category])%list)
          [] (rangeKeys o nested) in
  let categories := sort_Strings categories in
  nestedClients ←
    forEach (λ out category,
               let services := default [] (nested !! category) in
               let services := sort_Slice name_less services in
               categoryCapitalized ← capitalize category;
               let nestedClient :=
                 {| NCI_FieldName := categoryCapitalized;
                    NCI_TypeName := categoryCapitalized ++ "Client";
                    NCI_ImplName := generateImplName (categoryCapitalized ++ "Client");
                    NCI_InterfaceName :=
                      generateInterfaceName (categoryCapitalized ++ "Client");
                    NCI_PrivateField :=
                      generatePrivateFieldName (categoryCapitalized ++ "Client");
                    NCI_Services :=
                      foldl (λ out svc,
                               (out ++ [serviceInfo (Service_Name svc) svc])%list)
                            [] services |} in
               Ok (out ++ [nestedClient])%list)
            [] categories;
  Ok (rootClientTemplate
        {| RCTD_ClientName := clientName;
           RCTD_HTTPClientPkg := HTTPClientPkg cfg;
           RCTD_InterfaceName := generateInterfaceName clientName;
           RCTD_ImplName := generateImplName clientName;
           RCTD_TopLevelServices := topLevelServices;
           RCTD_NestedClients := nestedClients |}).

(* ================================================================== *)
(** * The driver *)
(* ================================================================== *)

(** A generated file: its path and its content, as [AddGeneratorFile]
    records them; [m.Artifacts()] returns them in the order of the calls. *)
Definition Artifact : Type := string * string.

Definition file_less (a b : PgsFile) : bool :=
  str_lt (File_Name a) (File_Name b).

(** A failed generation of one file is logged and the loop goes on; a panic
    ends the run. *)
Definition addGenerated (artifacts : list Artifact) (filename : string)
    (generated : outcome string) : outcome (list Artifact) :=
  match generated with
  | Ok code => Ok (artifacts ++ [(filename, code)])%list
  | Err _ => Ok artifacts
  | Panic e => Panic e
  end.

Section Execute.
Context `{GoLib}.

(** The text of http_client_base.go, which is copied to the output as it
    is. *)
Variable httpClientBaseCode : string.

(** [o1], [o2] and [o3] are the orders of the three loops over a map: over
    [targets] and over [nested] here, over [nested] in generateRootClient.
    [targets] is keyed by file name.  [m.Fail] ends the run with the
    message of the configuration error.  The sort of a bucket works on the
    slice that the map holds, so the map holds the sorted bucket
    afterwards. *)
Definition Execute (o1 o2 o3 : MapOrder) (params : gmap string string)
    (targets : gmap string PgsFile) : outcome (list Artifact) :=
  cfg ← parseClientConfig params;
  let files :=
    foldl (λ files f, (files ++ [f])%list) []
          (range_order o1 (map_to_list targets).*2) in
  let files := sort_Slice file_less files in
  let services := extractServices files (RootPackage cfg) in
  let httpClientPath :=
    filepath_Join [OutputSubdir cfg; "http"; "client.gen.go"] in
  let artifacts := [(httpClientPath, httpClientBaseCode)] in
  '(topLevel, nested) ← groupServices services (RootPackage cfg);
  let topLevel := sort_Slice name_less topLevel in
  artifacts ←
    forEach (λ artifacts svc,
               let serviceName :=
                 ToLower (TrimSuffix (Service_Name svc) "Service") in
               let filename :=
                 filepath_Join [OutputSubdir cfg; serviceName ++ ".gen.go"] in
               addGenerated artifacts filename (generateService svc cfg))
            artifacts topLevel;
  let categories :=
    foldl (λ categories category, (categories ++ [category])%list)
          [] (rangeKeys o2 nested) in
  let categories := sort_Strings categories in
  '(artifacts, nested) ←
    forEach (λ '(artifacts, nested) category,
               let categoryServices := default [] (nested !! category) in
               let categoryServices := sort_Slice name_less categoryServices in
               let nested := <[category := categoryServices]> nested in
               let filename :=
                 filepath_Join [OutputSubdir cfg; ToLower category ++ ".gen.go"] in
               artifacts ←
                 addGenerated artifacts filename
                   (generateNestedServices category categoryServices cfg);
               Ok (artifacts, nested))
            (artifacts, nested) categories;
  let clientFilename := filepath_Join [OutputSubdir cfg; "client.gen.go"] in
  addGenerated artifacts clientFilename
    (generateRootClient o3 (ClientName cfg) topLevel nested cfg).
End Execute.

(* ================================================================== *)
(** * One implementation of the library contracts *)
(* ================================================================== *)

(** Insertion sort, as an instance of [sort.Slice]. *)
Fixpoint insert_by {A} (less : A → A → bool) (x : A) (l : list A) : list A :=
  match l with
  | [] => [x]
  | y :: l' => if less x y then x :: l else y :: insert_by less x l'
  end.

Definition insertion_sort {A} (less : A → A → bool) (l : list A) : list A :=
  foldr (insert_by less) [] l.

(** [filepath.Clean] and [filepath.Join] on a system whose separator is the
    slash: empty and "." elements go, a ".." element takes the element before
    it with it, or stays when there is none to take and the path is not
    rooted. *)
Definition Clean (path : string) : string :=
  if String.eqb path "" then "."
  else
    let rooted := HasPrefix path "/" in
    let stack :=
      foldl (λ stack elem,
               if String.eqb elem "" || String.eqb elem "." then stack
               else if String.eqb elem ".." then
                 match stack with
                 | top :: below =>
                     if String.eqb top ".." then elem :: stack else below
                 | [] => if rooted then [] else [elem]
                 end
               else elem :: stack)
            [] (Split path "/") in
    let body := Join (reverse stack) "/" in
    if rooted then "/" ++ body
    else if String.eqb body "" then "." else body.

Fixpoint Join_path (elem : list string) : string :=
  match elem with
  | [] => ""
  | e :: rest =>
      if String.eqb e "" then Join_path rest else Clean (Join elem "/")
  end.

(** Two orders in which a loop may visit a map. *)
Definition order_forward : MapOrder :=
  {| range_order := λ A l, l;
     range_order_perm := λ A l, reflexivity l |}.

Definition order_backward : MapOrder :=
  {| range_order := λ A l, reverse l;
     range_order_perm := λ A l, reverse_Permutation l |}.

(* ================================================================== *)
(** * Notions used to state the properties *)
(* ================================================================== *)


(** The first byte in lower case, the rest unchanged. *)
Definition lowerFirst (name : string) : string :=
  match name with
  | "" => ""
  | String c rest => ToLower (String c "") ++ rest
  end.


(** [sub] occurs in [s]. *)
Definition contains (s sub : string) : bool := bool_decide (is_Some (Index s sub)).

(** A method with a google.api.http annotation of pattern [p], and the same
    method without the annotation. *)
Definition annotated (name input output : string) (p : HttpPattern) : PgsMethod :=
  {| pgs_Method_Name := name; pgs_Method_Input := input;
     pgs_Method_Output := output;
     pgs_Method_Options := Some {| Options_Http := Some p |} |}.

Definition unannotated (name input output : string) : PgsMethod :=
  {| pgs_Method_Name := name; pgs_Method_Input := input;
     pgs_Method_Output := output;
     pgs_Method_Options := Some {| Options_Http := None |} |}.

(** The patterns that set none of the five verbs. *)
Definition no_verb (p : HttpPattern) : bool :=
  match p with
  | HttpRule_Custom _ _ | HttpRule_unset => true
  | _ => false
  end.

(** The services of category [category] under the root package [rootPkg]:
    those outside the root package whose package has [category] as the
    segment that follows the segments of the root. *)
Definition in_category (rootPkg category : string) (svc : Service) : Prop :=
  Service_Package svc ≠ rootPkg ∧
  Split (Service_Package svc) "." !! length (Split rootPkg ".") = Some category.

Global Instance in_category_dec rootPkg category svc :
  Decision (in_category rootPkg category svc).
Proof. unfold in_category. apply _. Defined.

Definition top_level (rootPkg : string) (svc : Service) : Prop :=
  Service_Package svc = rootPkg.

Global Instance top_level_dec rootPkg svc : Decision (top_level rootPkg svc).
Proof. unfold top_level. apply _. Defined.

(** A map entry exists for the buckets that are not empty only. *)
Definition bucket_of (l : list Service) : option (list Service) :=
  match l with
  | [] => None
  | _ => Some l
  end.

(** Sample inputs. *)
Definition example_cfg : ClientConfig :=
  {| RootPackage := "root";
     OutputSubdir := "client";
     ClientName := "RootClient";
     GoModulePath := "example.com/mod";
     HTTPClientPkg := "example.com/mod/client/http" |}.

Definition put_service : Service :=
  {| Service_Name := "AccountsService";
     Service_Package := "root";
     Service_GoPackage := "accounts.proto";
     Service_Methods :=
       [ {| Method_Name := "UpdateAccount";
            Method_InputType := "UpdateAccountRequest";
            Method_OutputType := "UpdateAccountResponse";
            Method_HTTP := Some {| HTTP_Method := "PUT";
                                   HTTP_Path := "/v1/accounts";
                                   HTTP_PathParams := [] |} |} ] |}.

Definition file_barx : PgsFile :=
  {| File_Name := "foo/barx/x.proto";
     File_Package := "foo.barx";
     File_InputPathBase := "x.proto";
     File_Services :=
       [ {| pgs_Service_Name := "XService"; pgs_Service_Methods := [] |} ] |}.

Definition decl_accounts : PgsService :=
  {| pgs_Service_Name := "AccountsService";
     pgs_Service_Methods :=
       [ annotated "GetAccount" "GetAccountRequest" "GetAccountResponse"
           (HttpRule_Get "/v1/accounts/{id}");
         unannotated "Ping" "PingRequest" "PingResponse";
         annotated "Custom" "CustomRequest" "CustomResponse"
           (HttpRule_Custom "HEAD" "/v1/accounts") ] |}.

Definition file_accounts : PgsFile :=
  {| File_Name := "root/accounts.proto";
     File_Package := "root";
     File_InputPathBase := "accounts.proto";
     File_Services := [decl_accounts] |}.

(** The services that the two loops of extractServices append, before the
    final sort: file by file, those of the files whose package has the root
    package as a prefix of its text. *)
Definition collected `{GoLib} (files : list PgsFile) (rootPackage : string)
  : list Service :=
  file ← files;
  if HasPrefix (File_Package file) rootPackage
  then collectService file <$> File_Services file
  else [].

(** The reading of a path template from left to right: the pairs of a
    literal text and the name of the placeholder that follows it, and the
    literal text after the last placeholder. *)
Fixpoint segments_fuel (fuel : nat) (s : string) : list (string * string) * string :=
  match fuel with
  | 0 => ([], s)
  | S fuel' =>
      match nextMatch s with
      | Some (u, p, rest) =>
          let '(segs, tail) := segments_fuel fuel' rest in ((u, p) :: segs, tail)
      | None => ([], s)
      end
  end.

Definition segments (path : string) : list (string * string) * string :=
  segments_fuel (String.length path) path.

(** The text made of the segments, with [slot p] where placeholder [p] is. *)
Definition assemble (slot : string → string) (segs : list (string * string))
    (tail : string) : string :=
  foldr (λ '(u, p) acc, u ++ slot p ++ acc) tail segs.

Definition placeholder (p : string) : string := "{" ++ p ++ "}".

(** Byte [c] occurs in [s]. *)
Fixpoint has_byte (c : ascii) (s : string) : bool :=
  match s with
  | "" => false
  | String d s' => Ascii.eqb d c || has_byte c s'
  end.

(** Every opening brace of [u] has a closing brace right after it. *)
Definition closes_first (u : string) : bool :=
  match u with
  | String d _ => Ascii.eqb d "}"
  | "" => false
  end.

Fixpoint safe (u : string) : bool :=
  match u with
  | "" => true
  | String c u' =>
      if Ascii.eqb c "{" then closes_first u' && safe u' else safe u'
  end.

Definition file_investments : PgsFile :=
  {| File_Name := "root/investments/titles.proto";
     File_Package := "root.investments";
     File_InputPathBase := "titles.proto";
     File_Services :=
       [ {| pgs_Service_Name := "TreasureTitlesService";
            pgs_Service_Methods :=
              [ annotated "ListTitles" "ListTitlesRequest" "ListTitlesResponse"
                  (HttpRule_Post "/v1/investments") ] |} ] |}.

Definition example_targets : gmap string PgsFile :=
  {[ "root/accounts.proto" := file_accounts;
     "root/investments/titles.proto" := file_investments ]}.

Definition example_params : gmap string string :=
  {[ "client" := "root:client" ]}.

(** The first byte in upper case, the rest unchanged. *)
Definition upperFirst (name : string) : string :=
  match name with
  | "" => ""
  | String c rest => ToUpper (String c "") ++ rest
  end.

(** The last element of a list of strings, empty when there is none. *)
Definition last_segment (parts : list string) : string :=
  default "" (last parts).

(** The order of the collected services: by package, and by name within a
    package. *)
Definition service_le (a b : Service) : Prop :=
  str_lt (Service_Package a) (Service_Package b) = true ∨
  (Service_Package a = Service_Package b ∧
   (Service_Name a ≤ Service_Name b)%string).

(** The package is the root package or below it. *)
Definition under_root (rootPkg : string) (svc : Service) : Prop :=
  Service_Package svc = rootPkg ∨
  ∃ rest, Service_Package svc = rootPkg ++ "." ++ rest.

(** A bound method whose path has parameters. *)
Definition has_params (m : Method) : bool :=
  match Method_HTTP m with
  | Some http => bool_decide (0 < length (HTTP_PathParams http))%nat
  | None => false
  end.

(** The names of the files of a top-level service and of a category. *)
Definition service_file `{GoLib} (cfg : ClientConfig) (svc : Service) : string :=
  filepath_Join
    [OutputSubdir cfg; ToLower (TrimSuffix (Service_Name svc) "Service") ++ ".gen.go"].

Definition category_file `{GoLib} (cfg : ClientConfig) (category : string) : string :=
  filepath_Join [OutputSubdir cfg; ToLower category ++ ".gen.go"].

(** The services that a run collects from its target files. *)
Definition collected_services `{GoLib} (cfg : ClientConfig)
    (targets : gmap string PgsFile) : list Service :=
  extractServices (sort_Slice file_less (map_to_list targets).*2) (RootPackage cfg).

(** Every byte of the string is below 0x80, as in a protobuf identifier. *)
Fixpoint ascii_only (s : string) : bool :=
  match s with
  | "" => true
  | String c s' => isASCII c && ascii_only s'
  end.

(* ================================================================== *)
(** * Byte strings *)
(* ================================================================== *)

Lemma append_cons (c : ascii) (s t : string) : String c s ++ t = String c (s ++ t).
Proof. reflexivity. Qed.

Lemma append_nil_l (s : string) : "" ++ s = s.
Proof. reflexivity. Qed.

Lemma append_nil_r (s : string) : s ++ "" = s.
Proof. induction s as [|c s IH]; [done | by rewrite append_cons, IH]. Qed.

Lemma append_assoc (a b c : string) : (a ++ b) ++ c = a ++ b ++ c.
Proof. induction a as [|x a IH]; [done | by rewrite !append_cons, IH]. Qed.

Lemma length_append (a b : string) :
  String.length (a ++ b) = (String.length a + String.length b)%nat.
Proof. induction a as [|x a IH]; [done | rewrite append_cons; simpl; by rewrite IH]. Qed.

Lemma str_take_drop (n : nat) (s : string) : str_take n s ++ str_drop n s = s.
Proof.
  revert s; induction n as [|n IH]; intros [|c s]; simpl; try done.
  by rewrite append_cons, IH.
Qed.

Lemma str_take_app (a b : string) : str_take (String.length a) (a ++ b) = a.
Proof.
  induction a as [|x a IH]; [by destruct b|].
  rewrite append_cons; simpl. by rewrite IH.
Qed.

Lemma str_drop_app (a b : string) : str_drop (String.length a) (a ++ b) = b.
Proof. induction a as [|x a IH]; [by destruct b | by rewrite append_cons]. Qed.

Lemma str_take_0 (s : string) : str_take 0 s = "".
Proof. by destruct s. Qed.

Lemma str_drop_0 (s : string) : str_drop 0 s = s.
Proof. by destruct s. Qed.

Lemma length_str_take (n : nat) (s : string) :
  (n ≤ String.length s)%nat → String.length (str_take n s) = n.
Proof.
  revert s; induction n as [|n IH]; intros [|c s] Hn; simpl in *; try lia; try done.
  rewrite IH; lia.
Qed.

Lemma append_eq_nil (a b : string) : a ++ b = "" → a = "" ∧ b = "".
Proof. by destruct a. Qed.

Lemma HasPrefix_app (p s : string) : HasPrefix (p ++ s) p = true.
Proof.
  induction p as [|c p IH]; [done|].
  rewrite append_cons; simpl. by rewrite Ascii.eqb_refl.
Qed.

Lemma HasPrefix_spec (s p : string) : HasPrefix s p = true ↔ ∃ r, s = p ++ r.
Proof.
  split.
  - revert s; induction p as [|c p IH]; intros s Hp; simpl in *.
    + by exists s.
    + destruct s as [|d s]; [done|].
      apply andb_true_iff in Hp as [Hc Hp].
      apply Ascii.eqb_eq in Hc as ->.
      destruct (IH _ Hp) as [r ->]. by exists r.
  - intros [r ->]. apply HasPrefix_app.
Qed.

Lemma HasSuffix_spec (s x : string) : HasSuffix s x = true ↔ ∃ r, s = r ++ x.
Proof.
  unfold HasSuffix. split.
  - intros H. apply andb_true_iff in H as [Hlen Heq].
    apply String.eqb_eq in Heq.
    exists (str_take (String.length s - String.length x) s).
    rewrite <- Heq at 2. by rewrite str_take_drop.
  - intros [r ->]. rewrite length_append.
    rewrite bool_decide_eq_true_2 by lia. simpl.
    replace (String.length r + String.length x - String.length x)%nat
      with (String.length r) by lia.
    rewrite str_drop_app. apply String.eqb_refl.
Qed.

Lemma HasSuffix_false (s x : string) : HasSuffix s x = false ↔ ∀ r, s ≠ r ++ x.
Proof.
  split.
  - intros H r ->. by rewrite (proj2 (HasSuffix_spec _ _)) in H by eauto.
  - intros H. apply not_true_is_false. intros [r ->]%HasSuffix_spec.
    by eapply H.
Qed.

Lemma TrimSuffix_app (r x : string) : TrimSuffix (r ++ x) x = r.
Proof.
  unfold TrimSuffix.
  rewrite (proj2 (HasSuffix_spec _ _)) by eauto.
  rewrite length_append.
  replace (String.length r + String.length x - String.length x)%nat
    with (String.length r) by lia.
  apply str_take_app.
Qed.

Lemma TrimSuffix_none (s x : string) : (∀ r, s ≠ r ++ x) → TrimSuffix s x = s.
Proof. intros H. unfold TrimSuffix. by rewrite (proj2 (HasSuffix_false _ _)). Qed.


(* ================================================================== *)
(** * The naming policy *)
(* ================================================================== *)

Lemma generateImplName_spec (base : string) : generateImplName base = base ++ "Impl".
Proof. reflexivity. Qed.

Lemma generatePrivateFieldName_unfold (base : string) :
  generatePrivateFieldName base =
  lowerFirst (TrimSuffix (TrimSuffix base "Service") "Client").
Proof.
  unfold generatePrivateFieldName.
  destruct (String.eqb_spec base "") as [->|Hne]; [done|].
  destruct (TrimSuffix (TrimSuffix base "Service") "Client") as [|c rest]; [done|].
  rewrite bool_decide_eq_true_2 by (simpl; lia).
  reflexivity.
Qed.



(** C9.  Three base names that are not empty get the empty private field
    name, and the data that generateService hands to the template carries
    that empty name. *)
Theorem generatePrivateFieldName_empty_result :
  Forall (λ base,
            base ≠ "" ∧
            generatePrivateFieldName base = "" ∧
            ∀ pkg gopkg methods cfg,
              STD_PrivateField
                (serviceTemplateData
                   {| Service_Name := base; Service_Package := pkg;
                      Service_GoPackage := gopkg; Service_Methods := methods |}
                   cfg) = "")
         ["Service"; "Client"; "ClientService"].
Proof.
  repeat constructor; try done;
    intros pkg gopkg methods cfg; unfold serviceTemplateData; simpl;
    by destruct (processMethods _ _).
Qed.

(* ================================================================== *)
(** * Loops and the library contracts *)
(* ================================================================== *)

Lemma foldl_snoc_map {A B} (f : A → B) (init : list B) (l : list A) :
  foldl (λ out x, out ++ [f x])%list init l = (init ++ map f l)%list.
Proof.
  revert init; induction l as [|x l IH]; intros init; simpl.
  - by rewrite app_nil_r.
  - by rewrite IH, <- app_assoc.
Qed.

Lemma foldl_snoc_id {A} (l : list A) :
  foldl (λ out x, out ++ [x])%list [] l = l.
Proof. by rewrite (foldl_snoc_map id), map_id. Qed.

Lemma forEach_app {A S} (body : S → A → outcome S) (s : S) (l1 l2 : list A) :
  forEach body s (l1 ++ l2) = s' ← forEach body s l1; forEach body s' l2.
Proof.
  revert s; induction l1 as [|x l1 IH]; intros s; simpl; [done|].
  destruct (body s x) as [s'| |]; simpl; [apply IH|done..].
Qed.

Section sort_contract.
Context `{GoLib}.

Lemma sort_Slice_nil {A} (less : A → A → bool) : sort_Slice less [] = [].
Proof. apply Permutation_nil_r, sort_Slice_perm. Qed.

Lemma sort_Slice_singleton {A} (less : A → A → bool) (x : A) :
  sort_Slice less [x] = [x].
Proof. apply Permutation_singleton_r, sort_Slice_perm. Qed.

Lemma sort_Slice_elem_of {A} (less : A → A → bool) (l : list A) (x : A) :
  x ∈ sort_Slice less l ↔ x ∈ l.
Proof. by rewrite sort_Slice_perm. Qed.

End sort_contract.

(** Go's [<] on strings is a strict total order. *)
Lemma str_lt_irrefl (a : string) : str_lt a a = false.
Proof.
  unfold str_lt, String.ltb.
  destruct (String.compare a a) eqn:E; try done.
  pose proof (String.compare_antisym a a) as Ha. rewrite E in Ha. done.
Qed.

Lemma str_lt_leb (a b : string) : str_lt a b = negb (String.leb b a).
Proof.
  unfold str_lt, String.ltb, String.leb.
  rewrite (String.compare_antisym a b).
  by destruct (String.compare b a).
Qed.

Lemma str_lt_false_le (a b : string) : str_lt b a = false ↔ (a ≤ b)%string.
Proof.
  rewrite str_lt_leb, negb_false_iff. unfold String.le. by rewrite Is_true_true.
Qed.

Lemma str_lt_true_not_le (a b : string) : str_lt a b = true ↔ ¬ (b ≤ a)%string.
Proof.
  rewrite <- str_lt_false_le. by destruct (str_lt a b).
Qed.

Lemma str_lt_strict_weak {A} (key : A → string) :
  StrictWeak (λ x y, str_lt (key x) (key y)).
Proof.
  split.
  - intros x. apply str_lt_irrefl.
  - intros x y z. rewrite !str_lt_true_not_le. intros Hxy Hyz Hzx.
    destruct (total String.le (key y) (key x)) as [?|Hle]; [done|].
    apply Hyz. by etrans.
  - intros x y z. rewrite !str_lt_false_le. intros ??. by etrans.
Qed.

Lemma NoDup_key_inj {A} (key : A → string) (l : list A) (x y : A) :
  NoDup (key <$> l) → x ∈ l → y ∈ l → key x = key y → x = y.
Proof.
  intros Hnd [i Hi]%list_elem_of_lookup [j Hj]%list_elem_of_lookup Hk.
  assert (i = j) as ->; [|congruence].
  eapply NoDup_lookup; [done| |]; rewrite list_lookup_fmap.
  - by rewrite Hi.
  - rewrite Hj. simpl. by rewrite Hk.
Qed.

(** Sorting by a key that no two elements share has one result only. *)
Lemma sorted_by_key_unique {A} (key : A → string) (l1 l2 : list A) :
  NoDup (key <$> l1) →
  l1 ≡ₚ l2 →
  StronglySorted (λ x y, str_lt (key y) (key x) = false) l1 →
  StronglySorted (λ x y, str_lt (key y) (key x) = false) l2 →
  l1 = l2.
Proof.
  intros Hnd Hp Hs1 Hs2.
  eapply StronglySorted_unique_strong; [|done..].
  intros x1 x2 Hx1 Hx2. rewrite !str_lt_false_le. intros H12 H21.
  rewrite <- Hp in Hx2.
  apply (NoDup_key_inj key l1); [done..|].
  by apply (anti_symm String.le).
Qed.

Section sort_unique.
Context `{GoLib}.

Lemma sort_Slice_by_key_perm {A} (key : A → string) (l1 l2 : list A) :
  NoDup (key <$> l1) → l1 ≡ₚ l2 →
  sort_Slice (λ x y, str_lt (key x) (key y)) l1
  = sort_Slice (λ x y, str_lt (key x) (key y)) l2.
Proof.
  intros Hnd Hp.
  apply (sorted_by_key_unique key).
  - by rewrite sort_Slice_perm.
  - by rewrite !sort_Slice_perm.
  - apply (sort_Slice_sorted _ (λ x y, str_lt (key x) (key y))), str_lt_strict_weak.
  - apply (sort_Slice_sorted _ (λ x y, str_lt (key x) (key y))), str_lt_strict_weak.
Qed.

Lemma sort_Strings_perm (l1 l2 : list string) :
  NoDup l1 → l1 ≡ₚ l2 → sort_Strings l1 = sort_Strings l2.
Proof.
  intros Hnd Hp. apply (sort_Slice_by_key_perm id); [|done].
  by rewrite list_fmap_id.
Qed.

End sort_unique.

(** Insertion sort meets the contract of [sort.Slice]. *)
Lemma insert_by_perm {A} (less : A → A → bool) (x : A) (l : list A) :
  insert_by less x l ≡ₚ x :: l.
Proof.
  induction l as [|y l IH]; simpl; [done|].
  destruct (less x y); [done|]. by rewrite IH, Permutation_swap.
Qed.

Lemma insertion_sort_perm {A} (less : A → A → bool) (l : list A) :
  insertion_sort less l ≡ₚ l.
Proof.
  induction l as [|x l IH]; simpl; [done|].
  by rewrite insert_by_perm, IH.
Qed.

Lemma insert_by_sorted {A} (less : A → A → bool) (x : A) (l : list A) :
  StrictWeak less →
  Sorted (λ x y, less y x = false) l →
  Sorted (λ x y, less y x = false) (insert_by less x l).
Proof.
  intros Hsw. induction 1 as [|y l Hl IH Hhd]; simpl.
  - by repeat constructor.
  - destruct (less x y) eqn:Hxy.
    + constructor; [by constructor|]. constructor.
      destruct (less y x) eqn:Hyx; [|done].
      by rewrite <- (less_irrefl _ Hsw x), <- (less_trans _ Hsw x y x).
    + constructor; [done|].
      destruct Hhd as [|z l' Hz]; simpl; [by constructor|].
      destruct (less x z); by constructor.
Qed.

Lemma insertion_sort_sorted {A} (less : A → A → bool) (l : list A) :
  StrictWeak less →
  StronglySorted (λ x y, less y x = false) (insertion_sort less l).
Proof.
  intros Hsw. apply Sorted_StronglySorted.
  - intros x y z Hxy Hyz. by apply (less_incomp _ Hsw z y x).
  - induction l as [|x l IH]; simpl; [constructor|].
    by apply insert_by_sorted.
Qed.

Global Instance model_lib : GoLib :=
  {| sort_Slice := @insertion_sort;
     sort_Slice_perm := @insertion_sort_perm;
     sort_Slice_sorted := @insertion_sort_sorted;
     filepath_Join := Join_path |}.

(* ================================================================== *)
(** * The emission stage and the verbs *)
(* ================================================================== *)

Lemma processMethods_snoc (hasFmt : bool) (methods : list Method) (m : Method) :
  processMethods hasFmt (methods ++ [m]) =
  let '(hasFmt', out) := processMethods hasFmt methods in
  match Method_HTTP m with
  | None => (hasFmt', out)
  | Some http =>
      if bool_decide (0 < length (HTTP_PathParams http))%nat
      then (true,
            (out ++ [{| MTD_Name := Method_Name m;
                        MTD_InputType := Method_InputType m;
                        MTD_OutputType := Method_OutputType m;
                        MTD_HTTP := Some http;
                        MTD_PathConstruction :=
                          buildPathConstruction (HTTP_Path http)
                            (HTTP_PathParams http) |}])%list)
      else (hasFmt',
            (out ++ [{| MTD_Name := Method_Name m;
                        MTD_InputType := Method_InputType m;
                        MTD_OutputType := Method_OutputType m;
                        MTD_HTTP := Some http;
                        MTD_PathConstruction := "" |}])%list)
  end.
Proof.
  unfold processMethods. rewrite foldl_app. simpl.
  by destruct (foldl _ _ methods).
Qed.

(** Every method that reaches a template has its binding. *)
Lemma processMethods_bound (hasFmt : bool) (methods : list Method) :
  Forall (λ m, is_Some (MTD_HTTP m)) (processMethods hasFmt methods).2.
Proof.
  induction methods as [|m methods IH] using rev_ind; [constructor|].
  rewrite processMethods_snoc.
  destruct (processMethods hasFmt methods) as [hasFmt' out]; simpl in *.
  destruct (Method_HTTP m) as [http|]; [|done].
  case_bool_decide; simpl; apply Forall_app; split; try done;
    by repeat constructor.
Qed.

(** The methods that reach a template are the bound ones, in order. *)
Lemma processMethods_names (hasFmt : bool) (methods : list Method) :
  MTD_Name <$> (processMethods hasFmt methods).2 =
  Method_Name <$> filter (λ m, is_Some (Method_HTTP m)) methods.
Proof.
  induction methods as [|m methods IH] using rev_ind; [done|].
  rewrite processMethods_snoc, filter_app, fmap_app, <- IH.
  destruct (processMethods hasFmt methods) as [hasFmt' out]; simpl.
  rewrite filter_cons, filter_nil.
  destruct (Method_HTTP m) as [http|] eqn:E.
  - rewrite decide_True by done.
    case_bool_decide; simpl; by rewrite fmap_app.
  - rewrite decide_False by (by intros []). simpl. by rewrite app_nil_r.
Qed.

Lemma renderRange_ok {A} (body : A → outcome string) (l : list A) :
  Forall (λ x, is_Ok (body x) = true) l → is_Ok (renderRange body l) = true.
Proof.
  unfold renderRange. generalize "". intros out Hl. revert out.
  induction Hl as [|x l Hx Hl IH]; intros out; simpl; [done|].
  destruct (body x); try done. simpl. apply IH.
Qed.

Lemma is_Ok_bind {A B} (m : outcome A) (f : A → outcome B) :
  is_Ok m = true → (∀ a, is_Ok (f a) = true) → is_Ok (m ≫= f) = true.
Proof. destruct m; simpl; [|done..]. intros _ Hf. apply Hf. Qed.

Lemma renderServiceBody_ok (interfaceName implName serviceName : string)
    (methods : list MethodTemplateData) :
  Forall (λ m, is_Some (MTD_HTTP m)) methods →
  is_Ok (renderServiceBody interfaceName implName serviceName methods) = true.
Proof.
  intros Hm. unfold renderServiceBody.
  apply is_Ok_bind.
  { apply renderRange_ok. eapply Forall_impl; [done|].
    intros m [http Hhttp]. unfold renderMethodDecl, field_HTTP. by rewrite Hhttp. }
  intros decls. apply is_Ok_bind; [|done].
  apply renderRange_ok. eapply Forall_impl; [done|].
  intros m [http Hhttp]. unfold renderMethodImpl, field_HTTP. by rewrite Hhttp.
Qed.

Lemma generateService_ok (svc : Service) (cfg : ClientConfig) :
  is_Ok (generateService svc cfg) = true.
Proof.
  unfold generateService, serviceFileTemplate, serviceTemplateData.
  pose proof (processMethods_bound false (Service_Methods svc)) as Hb.
  destruct (processMethods false (Service_Methods svc)) as [hasFmt methods].
  simpl in *.
  pose proof (renderServiceBody_ok (generateInterfaceName (Service_Name svc))
                (generateImplName (Service_Name svc)) (Service_Name svc)
                methods Hb) as Hok.
  by destruct (renderServiceBody _ _ _ _).
Qed.

(** C1 fails on the code.  The templates know one test on the verb, whether
    it is "POST"; every other verb takes the branch of the GET call.  So
    for PUT, DELETE and PATCH the dispatch that is rendered is the call of
    [s.client.Get], and generateService returns no error for any service:
    on a service with one method bound to PUT it returns a file whose
    comment promises a PUT request and whose body calls Get, and so does
    generateNestedServices. *)
Theorem generateService_renders_other_verbs_as_get :
  Forall (λ verb, ∀ path params,
            renderDispatch {| HTTP_Method := verb; HTTP_Path := path;
                              HTTP_PathParams := params |}
            = cat ["err := s.client.Get(ctx, path, resp)"; nl; tab])
         ["PUT"; "DELETE"; "PATCH"] ∧
  (∀ svc cfg, is_Ok (generateService svc cfg) = true) ∧
  (∃ code, generateService put_service example_cfg = Ok code ∧
           contains code "// UpdateAccount makes a PUT request to /v1/accounts" = true ∧
           contains code "err := s.client.Get(ctx, path, resp)" = true ∧
           contains code "s.client.Put" = false) ∧
  (∃ code, generateNestedServices "accounts" [put_service] example_cfg = Ok code ∧
           contains code "// UpdateAccount makes a PUT request to /v1/accounts" = true ∧
           contains code "err := s.client.Get(ctx, path, resp)" = true ∧
           contains code "s.client.Put" = false).
Proof.
  split; [by repeat constructor|].
  split; [apply generateService_ok|].
  split; (eexists; split; [vm_compute; reflexivity|]; by vm_compute).
Qed.

(* ================================================================== *)
(** * The collector *)
(* ================================================================== *)

Section collector.
Context `{GoLib}.

Lemma extractServices_perm (files : list PgsFile) (rootPackage : string) :
  extractServices files rootPackage ≡ₚ collected files rootPackage.
Proof.
  unfold extractServices. rewrite sort_Slice_perm.
  assert (∀ init,
    foldl (λ services file,
             if negb (HasPrefix (File_Package file) rootPackage) then services
             else foldl (λ services svc, (services ++ [collectService file svc])%list)
                        services (File_Services file)) init files
    = (init ++ collected files rootPackage)%list) as Hloop.
  { induction files as [|file files IH]; intros init; simpl.
    - by rewrite app_nil_r.
    - rewrite IH. unfold collected at 2. simpl.
      destruct (HasPrefix (File_Package file) rootPackage); simpl.
      + by rewrite (foldl_snoc_map (collectService file)), <- app_assoc.
      + done. }
  by rewrite Hloop.
Qed.

Lemma extractServices_elem_of (files : list PgsFile) (rootPackage : string)
    (svc : Service) :
  svc ∈ extractServices files rootPackage ↔
  ∃ file decl, file ∈ files ∧
               HasPrefix (File_Package file) rootPackage = true ∧
               decl ∈ File_Services file ∧
               svc = collectService file decl.
Proof.
  rewrite extractServices_perm. unfold collected.
  rewrite list_elem_of_bind. split.
  - intros (file & Hsvc & Hfile).
    destruct (HasPrefix (File_Package file) rootPackage) eqn:E; [|by inv Hsvc].
    apply list_elem_of_fmap in Hsvc as (decl & -> & Hdecl). eauto 10.
  - intros (file & decl & Hfile & Hp & Hdecl & ->).
    exists file. rewrite Hp. split; [|done]. by apply list_elem_of_fmap_2.
Qed.

Lemma collectService_methods (file : PgsFile) (decl : PgsService) :
  Service_Methods (collectService file decl)
  ≡ₚ collectMethod <$> pgs_Service_Methods decl.
Proof.
  unfold collectService. simpl.
  by rewrite sort_Slice_perm, (foldl_snoc_map collectMethod).
Qed.

(** C2 fails on the code.  The test is [strings.HasPrefix] on the text of
    the package: with the root package "foo.bar", the service of a file in
    package "foo.barx" is collected. *)
Theorem extractServices_takes_foo_barx :
  HasPrefix "foo.barx" "foo.bar" = true ∧
  extractServices [file_barx] "foo.bar" =
    [ {| Service_Name := "XService";
         Service_Package := "foo.barx";
         Service_GoPackage := "x.proto";
         Service_Methods := [] |} ].
Proof.
  split; [done|].
  apply Permutation_singleton_r. rewrite extractServices_perm.
  unfold collected, collectService. simpl. by rewrite sort_Slice_nil.
Qed.

(** C10.  A collected service keeps every method that its declaration has,
    each under its own name; a method whose binding extraction returned an
    error, for want of an annotation or for an unsupported pattern, is kept
    with no binding.  The unbound methods go only when generateService
    builds the method list of the file: that list is the list of the bound
    methods of the service, in order. *)
Theorem extractServices_keeps_every_method (files : list PgsFile)
    (rootPackage : string) (svc : Service) :
  svc ∈ extractServices files rootPackage →
  ∃ file decl,
    file ∈ files ∧ decl ∈ File_Services file ∧
    Service_Name svc = pgs_Service_Name decl ∧
    Service_Methods svc ≡ₚ collectMethod <$> pgs_Service_Methods decl ∧
    length (Service_Methods svc) = length (pgs_Service_Methods decl) ∧
    (∀ method,
        Method_Name (collectMethod method) = pgs_Method_Name method ∧
        (is_Ok (extractHTTPInfo method) = false ↔
         Method_HTTP (collectMethod method) = None)) ∧
    ∀ cfg,
      MTD_Name <$> STD_Methods (serviceTemplateData svc cfg)
      = Method_Name <$> filter (λ m, is_Some (Method_HTTP m)) (Service_Methods svc) ∧
      Forall (λ m, is_Some (MTD_HTTP m)) (STD_Methods (serviceTemplateData svc cfg)).
Proof.
  intros (file & decl & Hfile & _ & Hdecl & ->)%extractServices_elem_of.
  exists file, decl. split; [done|]. split; [done|]. split; [done|].
  split; [apply collectService_methods|].
  split; [by rewrite collectService_methods, length_fmap|].
  split.
  - intros method. unfold collectMethod.
    destruct (extractHTTPInfo method); simpl; split; try done; by split.
  - intros cfg. unfold serviceTemplateData.
    pose proof (processMethods_names false
                  (Service_Methods (collectService file decl))) as Hn.
    pose proof (processMethods_bound false
                  (Service_Methods (collectService file decl))) as Hb.
    by destruct (processMethods _ _).
Qed.

End collector.

Lemma extractServices_keeps_every_method_witness :
  ∃ file decl,
    file ∈ [file_accounts] ∧ decl ∈ File_Services file ∧
    Service_Name (collectService file_accounts decl_accounts)
    = pgs_Service_Name decl.
Proof.
  destruct (extractServices_keeps_every_method (H:=model_lib)
              [file_accounts] "root"
              (collectService file_accounts decl_accounts))
    as (file & decl & Hfile & Hdecl & Hname & _).
  - vm_compute. left.
  - by exists file, decl.
Defined.

(* ================================================================== *)
(** * The binding extractor *)
(* ================================================================== *)

(** C3 fails on the code.  For a method whose annotation sets none of the
    five verbs, extractHTTPInfo returns the error "unsupported HTTP method
    pattern", which is not the error of a method without annotation; so far
    the code does what C3 says.  But the collector, the only caller, drops
    the error and reports nothing: the method is kept with no binding, and
    the collected method is the one that the same method without annotation
    gives. *)
Theorem extractHTTPInfo_unsupported_pattern (name input output : string)
    (p : HttpPattern) :
  no_verb p = true →
  extractHTTPInfo (annotated name input output p)
    = Err "unsupported HTTP method pattern" ∧
  extractHTTPInfo (unannotated name input output) = Err "no http annotation" ∧
  collectMethod (annotated name input output p)
    = {| Method_Name := name; Method_InputType := input;
         Method_OutputType := output; Method_HTTP := None |} ∧
  collectMethod (annotated name input output p)
    = collectMethod (unannotated name input output).
Proof. by destruct p. Qed.

Lemma extractHTTPInfo_unsupported_pattern_witness :
  extractHTTPInfo (annotated "Head" "Req" "Resp" (HttpRule_Custom "HEAD" "/v1/x"))
    = Err "unsupported HTTP method pattern".
Proof.
  apply (extractHTTPInfo_unsupported_pattern "Head" "Req" "Resp"
           (HttpRule_Custom "HEAD" "/v1/x")).
  reflexivity.
Defined.

(** C3, the failing input: a method whose annotation sets no pattern.  After
    collection nothing tells it from the same method without annotation, and
    the service that holds the one is collected as the service that holds
    the other. *)
Lemma collectMethod_hides_unsupported_pattern :
  collectMethod (annotated "Head" "Req" "Resp" HttpRule_unset)
    = collectMethod (unannotated "Head" "Req" "Resp") ∧
  Method_HTTP (collectMethod (annotated "Head" "Req" "Resp" HttpRule_unset)) = None ∧
  extractServices
    [ {| File_Name := "a.proto"; File_Package := "root";
         File_InputPathBase := "a.proto";
         File_Services :=
           [ {| pgs_Service_Name := "S";
                pgs_Service_Methods :=
                  [annotated "Head" "Req" "Resp" HttpRule_unset] |} ] |} ] "root"
  = extractServices
    [ {| File_Name := "a.proto"; File_Package := "root";
         File_InputPathBase := "a.proto";
         File_Services :=
           [ {| pgs_Service_Name := "S";
                pgs_Service_Methods :=
                  [unannotated "Head" "Req" "Resp"] |} ] |} ] "root".
Proof. done. Qed.

(* ================================================================== *)
(** * The configuration parser *)
(* ================================================================== *)

Lemma Index_unfold (s sub : string) :
  Index s sub =
  if HasPrefix s sub then Some 0%nat
  else match s with
       | "" => None
       | String _ s' => S <$> Index s' sub
       end.
Proof. by destruct s. Qed.

Lemma Index_app_Some (a sub b : string) : is_Some (Index (a ++ sub ++ b) sub).
Proof.
  induction a as [|c a IH].
  - rewrite append_nil_l, Index_unfold, HasPrefix_app. eauto.
  - rewrite append_cons, Index_unfold.
    destruct (HasPrefix _ sub); [eauto|].
    destruct IH as [j ->]. simpl. eauto.
Qed.

Lemma Index_Some_split (s sub : string) (j : nat) :
  Index s sub = Some j →
  s = str_take j s ++ sub ++ str_drop (j + String.length sub) s.
Proof.
  revert j; induction s as [|c s IH]; intros j; rewrite Index_unfold.
  - destruct (HasPrefix "" sub) eqn:E; [|done].
    intros [= <-]. apply HasPrefix_spec in E as [r E].
    symmetry in E. apply append_eq_nil in E as [-> ->]. done.
  - destruct (HasPrefix (String c s) sub) eqn:E.
    + intros [= <-]. apply HasPrefix_spec in E as [r E].
      rewrite E. simpl. by rewrite append_nil_l, str_drop_app.
    + destruct (Index s sub) as [j'|] eqn:E'; [|done].
      intros [= <-]. simpl. rewrite append_cons. f_equal. by apply IH.
Qed.

(** A parameter without colon is refused. *)
Lemma parseClientConfig_no_colon (params : gmap string string) :
  (∀ a b, Str params "client" ≠ a ++ ":" ++ b) →
  is_Err (parseClientConfig params) = true.
Proof.
  intros Hc. unfold parseClientConfig.
  destruct (String.eqb_spec (Str params "client") ""); [done|].
  unfold SplitN2.
  destruct (Index (Str params "client") ":") as [j|] eqn:E; [|done].
  apply Index_Some_split in E. by apply Hc in E.
Qed.

(** A configuration error ends the run before anything is collected. *)
Lemma Execute_config_error `{GoLib} (code msg : string) (o1 o2 o3 : MapOrder)
    (params : gmap string string) (targets : gmap string PgsFile) :
  parseClientConfig params = Err msg →
  Execute code o1 o2 o3 params targets = Err msg.
Proof. intros Hcfg. unfold Execute. by rewrite Hcfg. Qed.

(** C4 fails on the code.  The parser checks that the parameter is there
    and that it has a colon, and nothing else.  With an empty root package
    the computation of the client name panics on [lastPart[:1]]; with an
    empty output subdirectory the parser returns a configuration, whose
    import path of the HTTP client package has an empty segment. *)
Theorem parseClientConfig_empty_sides :
  parseClientConfig {[ "client" := ":client" ]}
    = Panic "slice bounds out of range" ∧
  parseClientConfig {[ "client" := "foo:" ]}
    = Ok {| RootPackage := "foo";
            OutputSubdir := "";
            ClientName := "FooClient";
            GoModulePath := "github.com/getfrontierhq/schema/pkg/go";
            HTTPClientPkg := "github.com/getfrontierhq/schema/pkg/go//http" |}.
Proof. split; by vm_compute. Qed.

(* ================================================================== *)
(** * The grouper *)
(* ================================================================== *)

Lemma bucket_of_default (l : list Service) : default [] (bucket_of l) = l.
Proof. by destruct l. Qed.

Lemma bucket_of_snoc (l : list Service) (svc : Service) :
  bucket_of (l ++ [svc]) = Some (l ++ [svc])%list.
Proof. by destruct l. Qed.

(** C7.  groupServices always returns, without panic.  The top-level list
    holds the services whose package is the root package, and no other; the
    bucket of a category holds the services outside the root package whose
    package, split at the dots, has the category at the index that is the
    number of segments of the root package; both are in the order of the
    input.  A service outside the root package whose package has no more
    segments than the root package is in neither. *)
Theorem groupServices_spec (services : list Service) (rootPkg : string) :
  ∃ topLevel nested,
    groupServices services rootPkg = Ok (topLevel, nested) ∧
    topLevel = filter (top_level rootPkg) services ∧
    (∀ category,
        nested !! category = bucket_of (filter (in_category rootPkg category) services)) ∧
    (∀ svc,
        Service_Package svc ≠ rootPkg →
        (length (Split (Service_Package svc) ".") ≤ length (Split rootPkg "."))%nat →
        (svc ∉ topLevel) ∧
        (∀ category bucket, nested !! category = Some bucket → svc ∉ bucket)).
Proof.
  cut (∃ topLevel nested,
    groupServices services rootPkg = Ok (topLevel, nested) ∧
    topLevel = filter (top_level rootPkg) services ∧
    (∀ category,
        nested !! category = bucket_of (filter (in_category rootPkg category) services))).
  { intros (topLevel & nested & Hrun & -> & Hnested).
    exists (filter (top_level rootPkg) services), nested.
    split; [done|]. split; [done|]. split; [done|].
    intros svc Hpkg Hlen. split.
    - by intros [? _]%list_elem_of_filter.
    - intros category bucket Hb Hin. rewrite Hnested in Hb.
      assert (bucket = filter (in_category rootPkg category) services) as ->.
      { destruct (filter (in_category rootPkg category) services);
          simpl in Hb; congruence. }
      apply list_elem_of_filter in Hin as [[_ Hc] _].
      apply lookup_lt_Some in Hc. lia. }
  unfold groupServices.
  induction services as [|svc services IH] using rev_ind.
  - exists [], ∅. split; [done|]. split; [done|]. intros category.
    by rewrite lookup_empty.
  - destruct IH as (topLevel & nested & Hrun & -> & Hnested).
    rewrite forEach_app, Hrun. simpl.
    destruct (String.eqb_spec (Service_Package svc) rootPkg) as [Hroot|Hroot].
    + eexists _, nested. split; [done|]. split.
      * by rewrite filter_app, filter_cons, filter_nil, decide_True.
      * intros category. rewrite Hnested, filter_app, filter_cons, filter_nil.
        rewrite decide_False by (by intros [? _]). by rewrite app_nil_r.
    + case_bool_decide as Hlen.
      * destruct (lookup_lt_is_Some_2 _ _ Hlen) as [c Hc].
        unfold index_at. rewrite Hc. simpl.
        eexists _, _. split; [done|]. split.
        { rewrite filter_app, filter_cons, filter_nil, decide_False by done.
          by rewrite app_nil_r. }
        intros category. unfold appendTo.
        rewrite filter_app, filter_cons, filter_nil.
        destruct (decide (c = category)) as [->|Hne].
        -- rewrite lookup_insert_eq, Hnested, bucket_of_default.
           rewrite decide_True by done. by rewrite bucket_of_snoc.
        -- rewrite lookup_insert_ne, Hnested by done.
           rewrite decide_False; [by rewrite app_nil_r|].
           intros [_ Hc']. congruence.
      * eexists _, nested. split; [done|]. split.
        { rewrite filter_app, filter_cons, filter_nil, decide_False by done.
          by rewrite app_nil_r. }
        intros category. rewrite Hnested, filter_app, filter_cons, filter_nil.
        rewrite decide_False; [by rewrite app_nil_r|].
        intros [_ Hc%lookup_lt_Some]. lia.
Qed.

(* ================================================================== *)
(** * The path compiler *)
(* ================================================================== *)

#[local] Arguments Ascii.eqb : simpl never.

Lemma has_byte_app (c : ascii) (a b : string) :
  has_byte c (a ++ b) = has_byte c a || has_byte c b.
Proof.
  induction a as [|d a IH]; [done|].
  rewrite append_cons. simpl. by rewrite IH, orb_assoc.
Qed.

Lemma closeBrace_Some (s p rest : string) :
  closeBrace s = Some (p, rest) →
  s = p ++ "}" ++ rest ∧ has_byte "}" p = false.
Proof.
  revert p; induction s as [|c s IH]; intros p; simpl; [done|].
  destruct (Ascii.eqb_spec c "}") as [->|Hc].
  - by intros [= <- <-].
  - destruct (closeBrace s) as [[p' rest']|]; simpl; [|done].
    intros [= <- <-]. destruct (IH p' eq_refl) as [-> Hp].
    split; [done|]. simpl. rewrite Hp.
    by rewrite (proj2 (Ascii.eqb_neq _ _) Hc).
Qed.

Lemma closeBrace_None (s : string) :
  closeBrace s = None → has_byte "}" s = false.
Proof.
  induction s as [|c s IH]; simpl; [done|].
  destruct (Ascii.eqb c "}"); [done|].
  destruct (closeBrace s) as [[??]|]; simpl; [done|]. auto.
Qed.

Lemma matchPlaceholder_Some (s p rest : string) :
  matchPlaceholder s = Some (p, rest) →
  s = placeholder p ++ rest ∧ p ≠ "" ∧ has_byte "}" p = false.
Proof.
  destruct s as [|c s]; simpl; [done|].
  destruct (Ascii.eqb_spec c "{") as [->|]; [|done].
  destruct (closeBrace s) as [[p' rest']|] eqn:E; simpl; [|done].
  destruct (String.eqb_spec p' ""); [done|].
  intros [= <- <-]. apply closeBrace_Some in E as [-> Hp].
  split; [|done]. unfold placeholder.
  by rewrite !append_cons, !append_nil_l, append_assoc.
Qed.

(** Where no match starts at an opening brace, either a closing brace
    follows at once or none follows at all. *)
Lemma matchPlaceholder_None_brace (s : string) :
  matchPlaceholder (String "{" s) = None →
  has_byte "}" s = false ∨ ∃ s', s = String "}" s'.
Proof.
  simpl. destruct (closeBrace s) as [[p rest]|] eqn:E; simpl.
  - destruct (String.eqb_spec p "") as [->|]; [|done].
    intros _. right. apply closeBrace_Some in E as [-> _]. eauto.
  - intros _. left. by apply closeBrace_None.
Qed.

Lemma closes_first_app (a b : string) :
  closes_first a = true → closes_first (a ++ b) = true.
Proof. by destruct a. Qed.

Lemma safe_tail (c : ascii) (u : string) : safe (String c u) = true → safe u = true.
Proof.
  simpl. destruct (Ascii.eqb c "{"); [|done]. by intros [_ ?]%andb_true_iff.
Qed.

Lemma safe_app (a b : string) : safe a = true → safe b = true → safe (a ++ b) = true.
Proof.
  intros Ha Hb. induction a as [|c a IH]; [done|].
  rewrite append_cons. pose proof (safe_tail _ _ Ha) as Ha'.
  simpl in *. destruct (Ascii.eqb c "{"); [|by apply IH].
  apply andb_true_iff in Ha as [Hd _].
  rewrite closes_first_app by done. by apply IH.
Qed.

Lemma nextMatch_unfold (s : string) :
  nextMatch s =
  match matchPlaceholder s with
  | Some (p, rest) => Some ("", p, rest)
  | None =>
      match s with
      | "" => None
      | String c s' => '(u, p, rest) ← nextMatch s'; Some (String c u, p, rest)
      end
  end.
Proof. by destruct s. Qed.

Lemma nextMatch_Some (s u p rest : string) :
  nextMatch s = Some (u, p, rest) →
  s = u ++ placeholder p ++ rest ∧ p ≠ "" ∧ has_byte "}" p = false ∧
  safe u = true.
Proof.
  revert u; induction s as [|c s IH]; intros u; rewrite nextMatch_unfold.
  { done. }
  destruct (matchPlaceholder (String c s)) as [[p' rest']|] eqn:E.
  - intros [= <- <- <-]. apply matchPlaceholder_Some in E as (-> & ? & ?).
    by rewrite append_nil_l.
  - destruct (nextMatch s) as [[[u' p'] rest']|]; simpl; [|done].
    intros [= <- <- <-]. destruct (IH u' eq_refl) as (-> & Hp & Hb & Hu).
    split; [by rewrite append_cons|]. split; [done|]. split; [done|].
    simpl. destruct (Ascii.eqb_spec c "{") as [->|]; [|done].
    apply matchPlaceholder_None_brace in E as [E|[s' E]].
    + unfold placeholder in E.
      rewrite !has_byte_app in E. simpl in E.
      by rewrite !orb_true_r in E.
    + destruct u' as [|d u']; [done|].
      rewrite append_cons in E. injection E as -> _. by rewrite Hu.
Qed.

Lemma nextMatch_length (s u p rest : string) :
  nextMatch s = Some (u, p, rest) → (String.length rest < String.length s)%nat.
Proof.
  intros (-> & _)%nextMatch_Some. unfold placeholder.
  rewrite !length_append. simpl. lia.
Qed.

(** No placeholder starts inside a safe text, whatever follows it. *)
Lemma Index_safe (pre t p : string) :
  safe pre = true → p ≠ "" → has_byte "}" p = false →
  Index (pre ++ t) (placeholder p)
  = (λ j, String.length pre + j)%nat <$> Index t (placeholder p).
Proof.
  intros Hpre Hp Hb. induction pre as [|c pre IH].
  - rewrite append_nil_l. by destruct (Index t _).
  - rewrite append_cons, Index_unfold.
    assert (HasPrefix (String c (pre ++ t)) (placeholder p) = false) as ->.
    { unfold placeholder. rewrite append_cons, append_nil_l. simpl in *.
      destruct (Ascii.eqb_spec "{" c) as [<-|]; [|done]. simpl in *.
      destruct pre as [|d pre]; [done|].
      apply andb_true_iff in Hpre as [->%Ascii.eqb_eq _].
      destruct p as [|e p]; [done|].
      rewrite !append_cons. simpl in *.
      apply orb_false_iff in Hb as [He _].
      by rewrite He. }
    rewrite IH by (by eapply safe_tail).
    by destruct (Index t _).
Qed.

Lemma Index_HasPrefix (t sub : string) : Index (sub ++ t) sub = Some 0%nat.
Proof. by rewrite Index_unfold, HasPrefix_app. Qed.

(** One round of the first loop of buildPathConstruction: the leftmost
    placeholder of what is not compiled yet becomes a slot. *)
Lemma Replace1_leftmost (pre u p rest : string) :
  safe pre = true → safe u = true → p ≠ "" → has_byte "}" p = false →
  Replace1 (pre ++ u ++ placeholder p ++ rest) (placeholder p) "%s"
  = (pre ++ u ++ "%s") ++ rest.
Proof.
  intros Hpre Hu Hp Hb.
  assert (pre ++ u ++ placeholder p ++ rest
          = (pre ++ u) ++ placeholder p ++ rest) as ->
    by (by rewrite append_assoc).
  assert (Index ((pre ++ u) ++ placeholder p ++ rest) (placeholder p)
          = Some (String.length (pre ++ u))) as Hi.
  { rewrite Index_safe by (by try apply safe_app).
    rewrite Index_HasPrefix. simpl. by rewrite Nat.add_0_r. }
  unfold Replace1. rewrite Hi, str_take_app.
  assert ((pre ++ u) ++ placeholder p ++ rest
          = ((pre ++ u) ++ placeholder p) ++ rest) as ->
    by (by rewrite !append_assoc).
  rewrite <- length_append, str_drop_app.
  by rewrite !append_assoc.
Qed.

Lemma safe_slot (pre u : string) :
  safe pre = true → safe u = true → safe (pre ++ u ++ "%s") = true.
Proof. intros ??. by repeat apply safe_app. Qed.

Lemma findAll_segments (fuel : nat) (s : string) :
  findAll fuel s
  = (λ '(u, p), [placeholder p; p]) <$> (segments_fuel fuel s).1.
Proof.
  revert s; induction fuel as [|fuel IH]; intros s; simpl; [done|].
  destruct (nextMatch s) as [[[u p] rest]|]; [|done].
  rewrite IH. by destruct (segments_fuel fuel rest).
Qed.

Lemma extractPathParams_segments (path : string) :
  extractPathParams path = (segments path).1.*2.
Proof.
  unfold extractPathParams, FindAllStringSubmatch, segments.
  rewrite findAll_segments.
  induction (segments_fuel _ path).1 as [|[u p] segs IH]; [done|].
  rewrite !fmap_cons. cbn [omap list_omap]. rewrite IH.
  by rewrite bool_decide_eq_true_2 by (simpl; lia).
Qed.

(** The segments are the path. *)
Lemma segments_assemble (fuel : nat) (s : string) :
  s = assemble placeholder (segments_fuel fuel s).1 (segments_fuel fuel s).2.
Proof.
  revert s; induction fuel as [|fuel IH]; intros s; simpl; [done|].
  destruct (nextMatch s) as [[[u p] rest]|] eqn:E; [|done].
  apply nextMatch_Some in E as (-> & _).
  specialize (IH rest). destruct (segments_fuel fuel rest) as [segs tail].
  simpl in *. by rewrite <- IH.
Qed.

(** The first loop of buildPathConstruction, run on the placeholders of the
    path: each round compiles one more segment. *)
Lemma replace_loop (fuel : nat) (s pre : string) :
  safe pre = true →
  foldl (λ template param, Replace1 template ("{" ++ param ++ "}") "%s")
        (pre ++ s) (segments_fuel fuel s).1.*2
  = pre ++ assemble (λ _, "%s") (segments_fuel fuel s).1 (segments_fuel fuel s).2.
Proof.
  revert s pre; induction fuel as [|fuel IH]; intros s pre Hpre; simpl; [done|].
  destruct (nextMatch s) as [[[u p] rest]|] eqn:E; [|done].
  apply nextMatch_Some in E as (-> & Hp & Hb & Hu).
  specialize (IH rest (pre ++ u ++ "%s") (safe_slot _ _ Hpre Hu)).
  destruct (segments_fuel fuel rest) as [segs tail]. simpl in *.
  change ("{" ++ p ++ "}") with (placeholder p).
  rewrite Replace1_leftmost by done.
  etrans; [exact IH|]. by rewrite !append_assoc.
Qed.

(** [String.length path] rounds find every match: no placeholder is left
    in the tail. *)
Lemma segments_tail_done (fuel : nat) (s : string) :
  (String.length s ≤ fuel)%nat → nextMatch (segments_fuel fuel s).2 = None.
Proof.
  revert s; induction fuel as [|fuel IH]; intros s Hlen; simpl.
  - by destruct s; [|simpl in Hlen; lia].
  - destruct (nextMatch s) as [[[u p] rest]|] eqn:E; [|done].
    pose proof (nextMatch_length _ _ _ _ E) as Hrest.
    specialize (IH rest). destruct (segments_fuel fuel rest) as [segs tail].
    apply IH. lia.
Qed.

Lemma segments_safe (fuel : nat) (s : string) :
  Forall (λ seg, safe seg.1 = true) (segments_fuel fuel s).1.
Proof.
  revert s; induction fuel as [|fuel IH]; intros s; simpl; [constructor|].
  destruct (nextMatch s) as [[[u p] rest]|] eqn:E; [|constructor].
  apply nextMatch_Some in E as (_ & _ & _ & Hu).
  specialize (IH rest). destruct (segments_fuel fuel rest) as [segs tail].
  by constructor.
Qed.

Lemma closes_first_matchPlaceholder (c : ascii) (u : string) :
  safe (String c u) = true → ∀ t, matchPlaceholder (String c (u ++ t)) = None.
Proof.
  intros Hs t. simpl in *.
  destruct (Ascii.eqb c "{"); [|done].
  apply andb_true_iff in Hs as [Hd _].
  destruct u as [|d u]; [done|]. simpl in Hd.
  rewrite append_cons. simpl. by rewrite Hd.
Qed.

Lemma nextMatch_safe_prefix (pre t : string) :
  safe pre = true → nextMatch t = None → nextMatch (pre ++ t) = None.
Proof.
  intros Hpre Ht. induction pre as [|c pre IH]; [done|].
  rewrite append_cons, nextMatch_unfold.
  rewrite closes_first_matchPlaceholder by done.
  by rewrite IH by (by eapply safe_tail).
Qed.

Lemma assemble_slots_no_match (segs : list (string * string)) (tail pre : string) :
  Forall (λ seg, safe seg.1 = true) segs → nextMatch tail = None →
  safe pre = true →
  nextMatch (pre ++ assemble (λ _, "%s") segs tail) = None.
Proof.
  intros Hsegs Htail. revert pre.
  induction Hsegs as [|[u p] segs Hu _ IH]; intros pre Hpre; simpl.
  - by apply nextMatch_safe_prefix.
  - specialize (IH (pre ++ u ++ "%s") (safe_slot _ _ Hpre Hu)).
    by rewrite !append_assoc in IH.
Qed.

Lemma nextMatch_None_params (s : string) :
  nextMatch s = None → extractPathParams s = [].
Proof.
  intros Hs. rewrite extractPathParams_segments. unfold segments.
  destruct (String.length s); simpl; [done|]. by rewrite Hs.
Qed.

(** C8.  When the parameters are the placeholders of the path, read from
    left to right, the template of the generated [fmt.Sprintf] call is the
    path with every placeholder replaced by a slot of its own, the literal
    text between them unchanged, and the arguments are the fields named by
    the PascalCase form of the parameters, in the order of the slots; a name
    that occurs twice fills two slots, and no placeholder is left in the
    template.  "link_id" becomes "LinkId". *)
Theorem buildPathConstruction_spec (path : string) (params : list string) :
  extractPathParams path = params →
  path = assemble placeholder (segments path).1 (segments path).2 ∧
  params = (segments path).1.*2 ∧
  buildPathConstruction path params
  = "fmt.Sprintf(" ++ dq
      ++ assemble (λ _, "%s") (segments path).1 (segments path).2
      ++ dq ++ ", "
      ++ Join ((λ p, "req." ++ snakeToPascal p) <$> params) ", " ++ ")" ∧
  extractPathParams (assemble (λ _, "%s") (segments path).1 (segments path).2) = [] ∧
  snakeToPascal "link_id" = "LinkId" ∧
  buildPathConstruction "/a/{id}/b/{id}" ["id"; "id"]
  = "fmt.Sprintf(" ++ dq ++ "/a/%s/b/%s" ++ dq ++ ", req.Id, req.Id)".
Proof.
  intros <-.
  split; [apply segments_assemble|].
  split; [apply extractPathParams_segments|].
  split; [|split; [|done]].
  - unfold buildPathConstruction.
    rewrite (foldl_snoc_map (λ p, "req." ++ snakeToPascal p)), app_nil_l.
    rewrite extractPathParams_segments.
    pose proof (replace_loop (String.length path) path "" eq_refl) as Hloop.
    rewrite !append_nil_l in Hloop. unfold segments. by rewrite Hloop.
  - apply nextMatch_None_params.
    apply (assemble_slots_no_match _ _ ""); [| |done].
    + apply segments_safe.
    + by apply segments_tail_done.
Qed.

Lemma buildPathConstruction_spec_witness :
  buildPathConstruction
    "/v1/data/links/{link_id}/data/investments/{investment_id}"
    ["link_id"; "investment_id"]
  = "fmt.Sprintf(" ++ dq ++ "/v1/data/links/%s/data/investments/%s" ++ dq
      ++ ", req.LinkId, req.InvestmentId)".
Proof.
  destruct (buildPathConstruction_spec
              "/v1/data/links/{link_id}/data/investments/{investment_id}"
              ["link_id"; "investment_id"]) as (_ & _ & Hb & _ & _).
  - reflexivity.
  - rewrite Hb. reflexivity.
Defined.

(* ================================================================== *)
(** * The driver: one input, one output *)
(* ================================================================== *)

Section determinism.
Context `{GoLib}.

(** Whatever the order in which the loop meets the files, the sorted slice
    is the same: the names are the keys of the map, so no two are equal. *)
Lemma sorted_files_order (o : MapOrder) (targets : gmap string PgsFile) :
  map_Forall (λ key file, File_Name file = key) targets →
  sort_Slice file_less
    (foldl (λ files f, (files ++ [f])%list) [] (range_order o (map_to_list targets).*2))
  = sort_Slice file_less (map_to_list targets).*2.
Proof.
  intros Hkeys. rewrite foldl_snoc_id.
  apply (sort_Slice_by_key_perm File_Name); [|apply range_order_perm].
  rewrite range_order_perm.
  assert (File_Name <$> (map_to_list targets).*2 = (map_to_list targets).*1) as ->.
  { rewrite <- list_fmap_compose. apply list_fmap_ext.
    intros i [key file] Hi. simpl.
    apply (Hkeys key file). apply elem_of_map_to_list.
    by eapply list_elem_of_lookup_2. }
  apply NoDup_fst_map_to_list.
Qed.

(** The same for the categories: they are the keys of [nested]. *)
Lemma sorted_categories_order (o : MapOrder) (nested : gmap string (list Service)) :
  sort_Strings
    (foldl (λ categories category, (categories ++ [category])%list) []
       (rangeKeys o nested))
  = sort_Strings (map_to_list nested).*1.
Proof.
  rewrite foldl_snoc_id. unfold rangeKeys.
  apply sort_Strings_perm; [|apply range_order_perm].
  rewrite range_order_perm. apply NoDup_fst_map_to_list.
Qed.

Lemma generateRootClient_order (o o' : MapOrder) (clientName : string)
    (topLevel : list Service) (nested : gmap string (list Service))
    (cfg : ClientConfig) :
  generateRootClient o clientName topLevel nested cfg
  = generateRootClient o' clientName topLevel nested cfg.
Proof.
  unfold generateRootClient. by rewrite !sorted_categories_order.
Qed.

(** C6.  Two runs of the generator on the same parameters and the same
    files give the same result, whatever the order in which each of them
    meets the entries of its maps: the same files, in the same order, with
    the same content, or the same failure.  This holds for every sort that
    meets the contract of [sort.Slice], stable or not. *)
Theorem Execute_deterministic (code : string) (o1 o2 o3 o1' o2' o3' : MapOrder)
    (params : gmap string string) (targets : gmap string PgsFile) :
  map_Forall (λ key file, File_Name file = key) targets →
  Execute code o1 o2 o3 params targets
  = Execute code o1' o2' o3' params targets.
Proof.
  intros Hkeys. unfold Execute.
  destruct (parseClientConfig params) as [cfg| |]; simpl; [|done..].
  rewrite (sorted_files_order o1), (sorted_files_order o1') by done.
  destruct (groupServices _ _) as [[topLevel nested]| |]; simpl; [|done..].
  destruct (forEach _ _ (sort_Slice name_less topLevel)) as [artifacts| |];
    simpl; [|done..].
  rewrite (sorted_categories_order o2), (sorted_categories_order o2').
  destruct (forEach _ _ (sort_Strings _)) as [[artifacts' nested']| |];
    simpl; [|done..].
  by rewrite (generateRootClient_order o3 o3').
Qed.

End determinism.

Lemma Execute_deterministic_witness :
  Execute "package http" order_forward order_backward order_forward
    example_params example_targets
  = Execute "package http" order_backward order_forward order_backward
      example_params example_targets.
Proof.
  apply (Execute_deterministic (H:=model_lib)).
  apply (bool_decide_unpack _). vm_compute. exact I.
Defined.

(* ================================================================== *)
(** * More on the naming policy *)
(* ================================================================== *)

Lemma append_inj_r (a b x : string) : a ++ x = b ++ x → a = b.
Proof.
  intros E.
  assert (String.length a = String.length b) as Hlen.
  { apply (f_equal String.length) in E. rewrite !length_append in E. lia. }
  rewrite <- (str_take_app a x), E, Hlen. apply str_take_app.
Qed.

Lemma append_cons_ne (s x : string) : x ≠ "" → s ++ x ≠ s.
Proof.
  intros Hx E. apply (f_equal String.length) in E.
  rewrite length_append in E. destruct x; [done|]. simpl in E. lia.
Qed.

(** X1.  Two services with different names get implementation structs with
    different names, and the struct of a service never has the name of the
    interface of that service. *)
Theorem generateImplName_injective (a b : string) :
  generateImplName a = generateImplName b →
  a = b ∧ generateImplName a ≠ generateInterfaceName a.
Proof.
  unfold generateImplName, generateInterfaceName. intros E. split.
  - by apply append_inj_r in E.
  - by apply append_cons_ne.
Qed.

Lemma generateImplName_injective_witness :
  "AuthService" = "AuthService" ∧
  generateImplName "AuthService" ≠ generateInterfaceName "AuthService".
Proof.
  apply (generateImplName_injective "AuthService" "AuthService"). reflexivity.
Defined.

Lemma str_drop_app_add (b y : string) (k : nat) :
  str_drop (String.length b + k) (b ++ y) = str_drop k y.
Proof. induction b as [|c b IH]; [done|]. by rewrite append_cons. Qed.

(** Of two endings of one string, the shorter is an ending of the longer. *)
Lemma append_suffix (a b x y : string) :
  a ++ x = b ++ y → (String.length x ≤ String.length y)%nat →
  HasSuffix y x = true.
Proof.
  intros E Hlen. apply HasSuffix_spec.
  exists (str_take (String.length y - String.length x) y).
  rewrite <- (str_take_drop (String.length y - String.length x) y) at 1.
  f_equal.
  rewrite <- (str_drop_app_add b y), <- E.
  replace (String.length b + (String.length y - String.length x))%nat
    with (String.length a).
  - by rewrite str_drop_app.
  - apply (f_equal String.length) in E. rewrite !length_append in E. lia.
Qed.

Lemma lowerFirst_nonempty (s : string) : s ≠ "" → lowerFirst s ≠ "".
Proof.
  destruct s as [|c s]; [done|]. intros _. simpl.
  destruct (isASCII c); by rewrite ?append_cons.
Qed.

(** X2.  The private field name does not keep service names apart: a base name
    with neither suffix, the same name with "Service" and the same name with
    "Client" all get the field name of the base, which is not empty when the
    base is not. *)
Theorem generatePrivateFieldName_collision (base : string) :
  HasSuffix base "Service" = false →
  HasSuffix base "Client" = false →
  generatePrivateFieldName (base ++ "Service") = generatePrivateFieldName base ∧
  generatePrivateFieldName (base ++ "Client") = generatePrivateFieldName base ∧
  generatePrivateFieldName base = lowerFirst base ∧
  (base ≠ "" → generatePrivateFieldName base ≠ "").
Proof.
  intros Hs Hc.
  pose proof (proj1 (HasSuffix_false _ _) Hs) as Hs'.
  pose proof (proj1 (HasSuffix_false _ _) Hc) as Hc'.
  rewrite !generatePrivateFieldName_unfold, !TrimSuffix_app.
  rewrite (TrimSuffix_none base "Service") by done.
  rewrite (TrimSuffix_none base "Client") by done.
  rewrite (TrimSuffix_none (base ++ "Client") "Service").
  - rewrite TrimSuffix_app. repeat split; try done; apply lowerFirst_nonempty.
  - intros r E. apply append_suffix in E; [done | simpl; lia].
Qed.

Lemma generatePrivateFieldName_collision_witness :
  generatePrivateFieldName "AccountsService" = generatePrivateFieldName "Accounts" ∧
  generatePrivateFieldName "AccountsClient" = generatePrivateFieldName "Accounts".
Proof.
  destruct (generatePrivateFieldName_collision "Accounts") as (H1 & H2 & _);
    [reflexivity..|].
  by split.
Defined.

(* ================================================================== *)
(** * Splitting, and the names built from the pieces *)
(* ================================================================== *)

Lemma Split_cons (c sep : ascii) (s : string) :
  Split (String c s) sep =
  if Ascii.eqb c sep then "" :: Split s sep
  else match Split s sep with
       | part :: parts => String c part :: parts
       | [] => [String c ""]
       end.
Proof. reflexivity. Qed.

Lemma Split_not_nil (s : string) (sep : ascii) : Split s sep ≠ [].
Proof.
  induction s as [|c s IH]; [done|]. rewrite Split_cons.
  destruct (Ascii.eqb c sep); [done|]. by destruct (Split s sep).
Qed.

Lemma Split_no_sep (s : string) (sep : ascii) :
  has_byte sep s = false → Split s sep = [s].
Proof.
  induction s as [|c s IH]; [done|]. simpl.
  intros [Hc Hs]%orb_false_iff. by rewrite Hc, IH.
Qed.

Lemma Split_parts (s : string) (sep : ascii) :
  Forall (λ part, has_byte sep part = false) (Split s sep).
Proof.
  induction s as [|c s IH]; [by repeat constructor|]. rewrite Split_cons.
  destruct (Ascii.eqb c sep) eqn:Hc; [by constructor|].
  destruct (Split s sep) as [|part parts].
  { repeat constructor. simpl. by rewrite Hc. }
  inv IH. constructor; [|done]. simpl. by rewrite Hc.
Qed.

(** A separator splits the list of the parts in two. *)
Lemma Split_app (a b : string) (sep : ascii) :
  Split (a ++ String sep b) sep = (Split a sep ++ Split b sep)%list.
Proof.
  induction a as [|c a IH].
  - rewrite append_nil_l, Split_cons. by rewrite Ascii.eqb_refl.
  - rewrite append_cons, !Split_cons, IH.
    destruct (Ascii.eqb c sep); [done|].
    pose proof (Split_not_nil a sep). by destruct (Split a sep).
Qed.

Lemma Split_below (root rest : string) :
  Split (root ++ "." ++ rest) "." !! length (Split root ".")
  = head (Split rest ".").
Proof.
  change (root ++ "." ++ rest) with (root ++ String "." rest).
  rewrite Split_app, lookup_app_r by lia.
  rewrite Nat.sub_diag. by destruct (Split rest ".").
Qed.

Lemma has_byte_Join_nosep (c : ascii) (parts : list string) :
  Forall (λ part, has_byte c part = false) parts →
  has_byte c (Join parts "") = false.
Proof.
  induction 1 as [|part parts Hp Hparts IH]; [done|].
  destruct parts as [|part' parts]; [done|].
  change (Join (part :: part' :: parts) "")
    with (part ++ "" ++ Join (part' :: parts) "").
  by rewrite append_nil_l, has_byte_app, Hp, IH.
Qed.

Lemma upperByte_not_underscore (c : ascii) :
  Ascii.eqb c "_" = false → Ascii.eqb (upperByte c) "_" = false.
Proof. destruct c as [[] [] [] [] [] [] [] []]; by vm_compute. Qed.

Lemma ToUpper_byte_no_underscore (c : ascii) :
  Ascii.eqb c "_" = false → has_byte "_" (ToUpper (String c "")) = false.
Proof.
  intros Hc. simpl. destruct (isASCII c); [|done].
  simpl. by rewrite upperByte_not_underscore.
Qed.

Lemma snakeToPascal_part (part : string) :
  (if bool_decide (0 < String.length part)%nat
   then ToUpper (str_take 1 part) ++ str_drop 1 part
   else part) = upperFirst part.
Proof. by destruct part. Qed.

(** X3.  snakeToPascal leaves no underscore in the name, and a name that has
    none comes back with its first byte in upper case and the rest as it
    was. *)
Theorem snakeToPascal_no_underscore (s : string) :
  has_byte "_" (snakeToPascal s) = false ∧
  (has_byte "_" s = false → snakeToPascal s = upperFirst s).
Proof.
  unfold snakeToPascal. split.
  - apply has_byte_Join_nosep, Forall_map.
    eapply Forall_impl; [apply Split_parts|].
    intros part Hp. simpl. rewrite snakeToPascal_part.
    destruct part as [|c part]; [done|].
    simpl in Hp. apply orb_false_iff in Hp as [Hc Hp].
    unfold upperFirst. rewrite has_byte_app, Hp, orb_false_r.
    by apply ToUpper_byte_no_underscore.
  - intros Hs. rewrite Split_no_sep by done. simpl.
    apply snakeToPascal_part.
Qed.

(* ================================================================== *)
(** * The import suffix *)
(* ================================================================== *)

Lemma ReplaceAllByte_no_old (s : string) (old : ascii) (new : string) :
  has_byte old new = false → has_byte old (ReplaceAllByte s old new) = false.
Proof.
  intros Hnew. induction s as [|c s IH]; [done|]. simpl.
  rewrite has_byte_app, IH, orb_false_r.
  destruct (Ascii.eqb c old) eqn:Hc; [done|]. simpl. by rewrite Hc.
Qed.

Lemma ReplaceAllByte_absent (s : string) (old : ascii) (new : string) :
  has_byte old s = false → ReplaceAllByte s old new = s.
Proof.
  induction s as [|c s IH]; [done|]. simpl.
  intros [Hc Hs]%orb_false_iff. by rewrite Hc, IH.
Qed.

Lemma computeImportSuffix_below (root rest : string) :
  computeImportSuffix (root ++ "." ++ rest) root
  = "/" ++ ReplaceAllByte rest "." "/".
Proof.
  unfold computeImportSuffix.
  destruct (String.eqb_spec (root ++ "." ++ rest) root) as [E|_].
  { by apply append_cons_ne in E. }
  rewrite <- (append_assoc root "." rest).
  rewrite HasPrefix_app. simpl. unfold TrimPrefix.
  by rewrite HasPrefix_app, str_drop_app.
Qed.

(** X4.  computeImportSuffix gives the path of a package below the root, one
    slash for each dot: the empty suffix for the root package itself and for
    every package that is not the root followed by a dot, and never a suffix
    with a dot in it. *)
Theorem computeImportSuffix_spec (root : string) :
  computeImportSuffix root root = "" ∧
  (∀ rest, computeImportSuffix (root ++ "." ++ rest) root
           = "/" ++ ReplaceAllByte rest "." "/") ∧
  (∀ pkg, (∀ rest, pkg ≠ root ++ "." ++ rest) →
          computeImportSuffix pkg root = "") ∧
  (∀ pkg, has_byte "." (computeImportSuffix pkg root) = false).
Proof.
  split; [|split; [|split]].
  - unfold computeImportSuffix. by rewrite String.eqb_refl.
  - apply computeImportSuffix_below.
  - intros pkg Hpkg. unfold computeImportSuffix.
    destruct (String.eqb pkg root); [done|].
    destruct (HasPrefix pkg (root ++ ".")) eqn:E; [|done].
    apply HasPrefix_spec in E as [rest ->].
    rewrite append_assoc in Hpkg. by destruct (Hpkg rest).
  - intros pkg. unfold computeImportSuffix.
    destruct (String.eqb pkg root); [done|].
    destruct (HasPrefix pkg (root ++ ".")); [|done]. simpl.
    rewrite has_byte_app. simpl. by apply ReplaceAllByte_no_old.
Qed.

(** X5.  For a service one segment below the root package, the three places
    that look at the package agree: the grouper puts it in the category of
    that segment, computeImportSuffix gives the slash and the segment, and
    the file of the category imports the proto package of that very path. *)
Theorem category_import_agree (cfg : ClientConfig) (category : string)
    (svc : Service) :
  has_byte "." category = false →
  Service_Package svc = RootPackage cfg ++ "." ++ category →
  in_category (RootPackage cfg) category svc ∧
  computeImportSuffix (Service_Package svc) (RootPackage cfg) = "/" ++ category ∧
  ∀ capitalized services,
    NSTD_ProtoPackage
      (nestedServicesTemplateData capitalized category services cfg)
    = STD_ProtoPackage (serviceTemplateData svc cfg).
Proof.
  intros Hc Hpkg. split; [|split].
  - split.
    + rewrite Hpkg. by apply append_cons_ne.
    + by rewrite Hpkg, Split_below, Split_no_sep.
  - by rewrite Hpkg, computeImportSuffix_below, ReplaceAllByte_absent.
  - intros capitalized services.
    unfold nestedServicesTemplateData, serviceTemplateData.
    rewrite Hpkg, computeImportSuffix_below, ReplaceAllByte_absent by done.
    destruct (foldl _ _ services). by destruct (processMethods _ _).
Qed.

Lemma category_import_agree_witness :
  in_category "root" "investments"
    {| Service_Name := "FundsService"; Service_Package := "root.investments";
       Service_GoPackage := "funds.proto"; Service_Methods := [] |}.
Proof.
  apply (category_import_agree example_cfg "investments"
           {| Service_Name := "FundsService";
              Service_Package := "root.investments";
              Service_GoPackage := "funds.proto"; Service_Methods := [] |});
    reflexivity.
Defined.

(* ================================================================== *)
(** * More on path parameters *)
(* ================================================================== *)

Lemma closeBrace_absent (s : string) :
  has_byte "}" s = false → closeBrace s = None.
Proof.
  induction s as [|c s IH]; [done|]. simpl.
  intros [Hc Hs]%orb_false_iff. by rewrite Hc, IH.
Qed.

Lemma closeBrace_app (p rest : string) :
  has_byte "}" p = false → closeBrace (p ++ "}" ++ rest) = Some (p, rest).
Proof.
  intros Hp. induction p as [|c p IH]; [done|].
  simpl in Hp. apply orb_false_iff in Hp as [Hc Hp].
  rewrite append_cons. simpl. by rewrite Hc, IH.
Qed.

Lemma matchPlaceholder_app (p rest : string) :
  p ≠ "" → has_byte "}" p = false →
  matchPlaceholder (placeholder p ++ rest) = Some (p, rest).
Proof.
  intros Hne Hp. unfold placeholder.
  rewrite !append_assoc, append_cons, append_nil_l. simpl.
  rewrite closeBrace_app by done. simpl.
  by destruct (String.eqb_spec p "").
Qed.

(** After a safe text, the leftmost match is the placeholder that follows
    it. *)
Lemma nextMatch_app (u p rest : string) :
  safe u = true → p ≠ "" → has_byte "}" p = false →
  nextMatch (u ++ placeholder p ++ rest) = Some (u, p, rest).
Proof.
  intros Hu Hne Hp. induction u as [|c u IH].
  - by rewrite append_nil_l, nextMatch_unfold, matchPlaceholder_app.
  - rewrite append_cons, nextMatch_unfold.
    rewrite closes_first_matchPlaceholder by done.
    by rewrite IH by (by eapply safe_tail).
Qed.

Lemma safe_no_brace (u : string) : has_byte "{" u = false → safe u = true.
Proof.
  induction u as [|c u IH]; [done|]. simpl.
  intros [Hc Hu]%orb_false_iff. rewrite Hc. auto.
Qed.

Lemma nextMatch_no_open (s : string) : has_byte "{" s = false → nextMatch s = None.
Proof.
  induction s as [|c s IH]; [done|]. intros Hs.
  pose proof Hs as Hs'. simpl in Hs'. apply orb_false_iff in Hs' as [Hc Hs'].
  rewrite nextMatch_unfold. simpl. by rewrite Hc, IH.
Qed.

Lemma nextMatch_no_close (s : string) : has_byte "}" s = false → nextMatch s = None.
Proof.
  induction s as [|c s IH]; [done|]. intros Hs.
  pose proof Hs as Hs'. simpl in Hs'. apply orb_false_iff in Hs' as [Hc Hs'].
  rewrite nextMatch_unfold. simpl.
  rewrite closeBrace_absent, IH by done. by destruct (Ascii.eqb c "{").
Qed.

Lemma segments_fuel_names (fuel : nat) (s : string) :
  Forall (λ seg, seg.2 ≠ "" ∧ has_byte "}" seg.2 = false) (segments_fuel fuel s).1.
Proof.
  revert s; induction fuel as [|fuel IH]; intros s; simpl; [constructor|].
  destruct (nextMatch s) as [[[u p] rest]|] eqn:E; [|constructor].
  apply nextMatch_Some in E as (_ & Hne & Hp & _).
  specialize (IH rest). destruct (segments_fuel fuel rest) as [segs tail].
  by constructor.
Qed.

Lemma assemble_length (segs : list (string * string)) (tail : string) :
  Forall (λ seg, seg.2 ≠ "") segs →
  (length segs * 3 + String.length tail
   ≤ String.length (assemble placeholder segs tail))%nat.
Proof.
  induction 1 as [|[u p] segs Hp _ IH]; simpl; [lia|].
  unfold placeholder in *. rewrite !length_append.
  destruct p as [|c p]; [done|]. simpl in *. lia.
Qed.

(** X6.  Every extracted parameter name is non-empty and holds no closing brace;
    each costs the path three bytes at least; a path without opening brace,
    or without closing brace, has no parameter. *)
Theorem extractPathParams_names (path : string) :
  Forall (λ p, p ≠ "" ∧ has_byte "}" p = false) (extractPathParams path) ∧
  (3 * length (extractPathParams path) ≤ String.length path)%nat ∧
  (has_byte "{" path = false → extractPathParams path = []) ∧
  (has_byte "}" path = false → extractPathParams path = []).
Proof.
  split; [|split; [|split]].
  - rewrite extractPathParams_segments. apply Forall_fmap.
    eapply Forall_impl; [apply segments_fuel_names|]. by intros [u p].
  - rewrite extractPathParams_segments, length_fmap.
    pose proof (segments_assemble (String.length path) path) as Hp.
    pose proof (assemble_length (segments path).1 (segments path).2) as Hl.
    unfold segments in *. rewrite <- Hp in Hl.
    assert (length (segments_fuel (String.length path) path).1 * 3
            ≤ String.length path)%nat; [|lia].
    etrans; [|apply Hl]; [lia|].
    eapply Forall_impl; [apply segments_fuel_names|]. by intros [u p] [? _].
  - intros Hs. by apply nextMatch_None_params, nextMatch_no_open.
  - intros Hs. by apply nextMatch_None_params, nextMatch_no_close.
Qed.

Lemma segments_fuel_assemble (fuel : nat) (segs : list (string * string))
    (tail : string) :
  Forall (λ seg, safe seg.1 = true ∧ seg.2 ≠ "" ∧ has_byte "}" seg.2 = false) segs →
  nextMatch tail = None →
  (length segs ≤ fuel)%nat →
  segments_fuel fuel (assemble placeholder segs tail) = (segs, tail).
Proof.
  intros Hsegs Htail. revert fuel.
  induction Hsegs as [|[u p] segs (Hu & Hne & Hp) _ IH]; intros fuel Hfuel; simpl.
  - destruct fuel; [done|]. simpl. by rewrite Htail.
  - destruct fuel as [|fuel]; [simpl in Hfuel; lia|]. simpl in *.
    rewrite nextMatch_app by done. rewrite IH by lia. done.
Qed.

(** X7.  From the parts to the path and back: a path written as literal texts
    without opening brace, each followed by a placeholder whose name is not
    empty and has no closing brace, and a last literal text, is read back as
    these very parts, and its parameters are the names, in order and with
    their repetitions. *)
Theorem extractPathParams_assemble (segs : list (string * string)) (tail : string) :
  Forall (λ seg, has_byte "{" seg.1 = false ∧
                 seg.2 ≠ "" ∧ has_byte "}" seg.2 = false) segs →
  has_byte "{" tail = false →
  segments (assemble placeholder segs tail) = (segs, tail) ∧
  extractPathParams (assemble placeholder segs tail) = segs.*2.
Proof.
  intros Hsegs Htail.
  assert (segments (assemble placeholder segs tail) = (segs, tail)) as Hseg.
  { unfold segments. apply segments_fuel_assemble.
    - eapply Forall_impl; [done|]. intros [u p] (? & ? & ?).
      split; [by apply safe_no_brace|done].
    - by apply nextMatch_no_open.
    - etrans; [|apply assemble_length]; [lia|].
      eapply Forall_impl; [done|]. by intros [u p] (_ & ? & _). }
  split; [done|]. by rewrite extractPathParams_segments, Hseg.
Qed.

Lemma extractPathParams_assemble_witness :
  extractPathParams
    (assemble placeholder [("/v1/links/", "link_id"); ("/items/", "link_id")] "/x")
  = ["link_id"; "link_id"].
Proof.
  apply (extractPathParams_assemble
           [("/v1/links/", "link_id"); ("/items/", "link_id")] "/x").
  - repeat constructor; done.
  - reflexivity.
Defined.

(* ================================================================== *)
(** * The bindings that the collector stores *)
(* ================================================================== *)

Lemma extractHTTPInfo_Ok (method : PgsMethod) (info : HTTPInfo) :
  extractHTTPInfo method = Ok info →
  HTTP_Method info ∈ ["GET"; "POST"; "PUT"; "DELETE"; "PATCH"] ∧
  HTTP_PathParams info = extractPathParams (HTTP_Path info).
Proof.
  unfold extractHTTPInfo.
  destruct (pgs_Method_Options method) as [[[p|]]|]; [|done..].
  destruct p; simpl; intros [= <-]; simpl; (split; [set_solver|done]).
Qed.

Lemma collectMethod_Some (method : PgsMethod) (info : HTTPInfo) :
  Method_HTTP (collectMethod method) = Some info →
  extractHTTPInfo method = Ok info.
Proof.
  unfold collectMethod. destruct (extractHTTPInfo method); simpl; congruence.
Qed.

(** X8.  Every binding in a collected service has one of the five verbs, and its
    path parameters are the placeholders of its path, from left to right. *)
Theorem extractServices_bindings `{GoLib} (files : list PgsFile)
    (rootPackage : string) (svc : Service) (m : Method) (info : HTTPInfo) :
  svc ∈ extractServices files rootPackage →
  m ∈ Service_Methods svc →
  Method_HTTP m = Some info →
  HTTP_Method info ∈ ["GET"; "POST"; "PUT"; "DELETE"; "PATCH"] ∧
  HTTP_PathParams info = extractPathParams (HTTP_Path info).
Proof.
  intros (file & decl & _ & _ & _ & ->)%extractServices_elem_of Hm Hinfo.
  rewrite collectService_methods in Hm.
  apply list_elem_of_fmap in Hm as (method & -> & _).
  by eapply extractHTTPInfo_Ok, collectMethod_Some.
Qed.

Lemma extractServices_bindings_witness :
  "GET" ∈ ["GET"; "POST"; "PUT"; "DELETE"; "PATCH"] ∧
  ["id"] = extractPathParams "/v1/accounts/{id}".
Proof.
  apply (extractServices_bindings (H:=model_lib) [file_accounts] "root"
           (collectService file_accounts decl_accounts)
           {| Method_Name := "GetAccount";
              Method_InputType := "GetAccountRequest";
              Method_OutputType := "GetAccountResponse";
              Method_HTTP := Some {| HTTP_Method := "GET";
                                     HTTP_Path := "/v1/accounts/{id}";
                                     HTTP_PathParams := ["id"] |} |}
           {| HTTP_Method := "GET"; HTTP_Path := "/v1/accounts/{id}";
              HTTP_PathParams := ["id"] |}).
  - vm_compute. left.
  - vm_compute. right. left.
  - reflexivity.
Defined.

(* ================================================================== *)
(** * The order of the collected services *)
(* ================================================================== *)

Lemma str_lt_trans (a b c : string) :
  str_lt a b = true → str_lt b c = true → str_lt a c = true.
Proof. apply (less_trans _ (str_lt_strict_weak (A:=string) id)). Qed.

Lemma str_lt_incomp (a b c : string) :
  str_lt a b = false → str_lt b c = false → str_lt a c = false.
Proof. apply (less_incomp _ (str_lt_strict_weak (A:=string) id)). Qed.

Lemma str_lt_total (a b : string) :
  a ≠ b → str_lt a b = false → str_lt b a = true.
Proof.
  intros Hne Hab. destruct (str_lt b a) eqn:Hba; [done|].
  apply str_lt_false_le in Hab, Hba.
  destruct Hne. by apply (anti_symm String.le).
Qed.

Lemma str_lt_asym (a b : string) : str_lt a b = true → str_lt b a = false.
Proof.
  intros Hab. destruct (str_lt b a) eqn:Hba; [|done].
  by rewrite <- (str_lt_irrefl a), <- (str_lt_trans a b a).
Qed.

(** The comparison that extractServices hands to [sort.Slice] is a strict
    weak order, as [sort.Slice] requires. *)
Lemma service_less_strict_weak : StrictWeak service_less.
Proof.
  unfold service_less. split.
  - intros x. rewrite String.eqb_refl. apply str_lt_irrefl.
  - intros x y z.
    destruct (String.eqb_spec (Service_Package x) (Service_Package y)) as [Exy|Nxy],
             (String.eqb_spec (Service_Package y) (Service_Package z)) as [Eyz|Nyz],
             (String.eqb_spec (Service_Package x) (Service_Package z)) as [Exz|Nxz];
      try congruence; intros H1 H2.
    all: first [ by eapply str_lt_trans
               | rewrite Exz in H1; by rewrite (str_lt_asym _ _ H1) in H2 ].
  - intros x y z.
    destruct (String.eqb_spec (Service_Package x) (Service_Package y)) as [Exy|Nxy],
             (String.eqb_spec (Service_Package y) (Service_Package z)) as [Eyz|Nyz],
             (String.eqb_spec (Service_Package x) (Service_Package z)) as [Exz|Nxz];
      try congruence; intros H1 H2.
    all: first [ by eapply str_lt_incomp
               | apply str_lt_total in H1; [|done];
                 rewrite Exz in H1; congruence ].
Qed.

Lemma service_less_le (a b : Service) : service_less b a = false → service_le a b.
Proof.
  unfold service_less, service_le.
  destruct (String.eqb_spec (Service_Package b) (Service_Package a)) as [E|N].
  - intros Hn. right. split; [done|]. by apply str_lt_false_le.
  - intros Hp. left. by apply str_lt_total.
Qed.

Lemma extractServices_sorted_services `{GoLib} (files : list PgsFile)
    (rootPackage : string) :
  StronglySorted service_le (extractServices files rootPackage).
Proof.
  unfold extractServices.
  pose proof (sort_Slice_sorted _ service_less
                (foldl (λ services file,
                          if negb (HasPrefix (File_Package file) rootPackage)
                          then services
                          else foldl (λ services svc,
                                        (services ++ [collectService file svc])%list)
                                     services (File_Services file)) [] files)
                service_less_strict_weak) as Hs.
  induction Hs as [|svc l Hl IH Hsvc]; constructor; [done|].
  eapply Forall_impl; [done|]. intros b. apply service_less_le.
Qed.

(** X9.  The collected services come out ordered by package and, within a
    package, by name, and the methods of each of them ordered by name. *)
Theorem extractServices_sorted `{GoLib} (files : list PgsFile) (rootPackage : string) :
  StronglySorted service_le (extractServices files rootPackage) ∧
  Forall (λ svc,
            StronglySorted (λ a b, (Method_Name a ≤ Method_Name b)%string)
              (Service_Methods svc))
         (extractServices files rootPackage).
Proof.
  split.
  - apply extractServices_sorted_services.
  - apply Forall_forall. intros svc (file & decl & _ & _ & _ & ->)%extractServices_elem_of.
    unfold collectService. simpl.
    pose proof (sort_Slice_sorted _ method_less
                  (foldl (λ methods method, (methods ++ [collectMethod method])%list)
                         [] (pgs_Service_Methods decl))
                  (str_lt_strict_weak Method_Name)) as Hs.
    induction Hs as [|m l Hl IH Hm]; constructor; [done|].
    eapply Forall_impl; [done|]. intros b. apply str_lt_false_le.
Qed.

(** X10.  Every service of a file in the root package or below it is collected,
    and no service of a file whose package does not begin with the text of
    the root package is. *)
Theorem extractServices_root_and_below `{GoLib} (files : list PgsFile)
    (rootPackage : string) :
  (∀ file decl,
      file ∈ files → decl ∈ File_Services file →
      (File_Package file = rootPackage ∨
       ∃ rest, File_Package file = rootPackage ++ "." ++ rest) →
      collectService file decl ∈ extractServices files rootPackage) ∧
  (∀ svc, svc ∈ extractServices files rootPackage →
          HasPrefix (Service_Package svc) rootPackage = true).
Proof.
  split.
  - intros file decl Hfile Hdecl Hunder. apply extractServices_elem_of.
    exists file, decl. split; [done|]. split; [|done].
    destruct Hunder as [E|[rest E]]; rewrite E.
    + rewrite <- (append_nil_r rootPackage) at 1. apply HasPrefix_app.
    + apply HasPrefix_app.
  - by intros svc (file & decl & _ & Hp & _ & ->)%extractServices_elem_of.
Qed.

Lemma extractServices_unfold `{GoLib} (files : list PgsFile) (rootPackage : string) :
  extractServices files rootPackage
  = sort_Slice service_less (collected files rootPackage).
Proof.
  unfold extractServices. f_equal.
  assert (∀ init,
    foldl (λ services file,
             if negb (HasPrefix (File_Package file) rootPackage) then services
             else foldl (λ services svc, (services ++ [collectService file svc])%list)
                        services (File_Services file)) init files
    = (init ++ collected files rootPackage)%list) as Hloop; [|apply Hloop].
  induction files as [|file files IH]; intros init; simpl.
  - by rewrite app_nil_r.
  - rewrite IH. unfold collected at 2. simpl.
    destruct (HasPrefix (File_Package file) rootPackage); simpl; [|done].
    by rewrite (foldl_snoc_map (collectService file)), <- app_assoc.
Qed.

Lemma service_le_antisym (a b : Service) :
  service_le a b → service_le b a →
  Service_Package a = Service_Package b ∧ Service_Name a = Service_Name b.
Proof.
  intros [Hab|[Eab Hab]] [Hba|[Eba Hba]].
  - by rewrite (str_lt_asym _ _ Hab) in Hba.
  - rewrite Eba, str_lt_irrefl in Hab. done.
  - rewrite Eab, str_lt_irrefl in Hba. done.
  - split; [done|]. by apply (anti_symm String.le).
Qed.

(** X11.  The collector does not depend on the order of the files, as long as no
    two collected services have the same package and the same name. *)
Theorem extractServices_order_independent `{GoLib} (files1 files2 : list PgsFile)
    (rootPackage : string) :
  files1 ≡ₚ files2 →
  NoDup ((λ svc, (Service_Package svc, Service_Name svc))
           <$> collected files1 rootPackage) →
  extractServices files1 rootPackage = extractServices files2 rootPackage.
Proof.
  intros Hp Hnd.
  assert (collected files1 rootPackage ≡ₚ collected files2 rootPackage) as Hc.
  { unfold collected. by rewrite Hp. }
  pose proof (extractServices_sorted_services files1 rootPackage) as Hs1.
  pose proof (extractServices_sorted_services files2 rootPackage) as Hs2.
  eapply StronglySorted_unique_strong; [|done..|].
  - intros a b Ha Hb Hab Hba.
    destruct (service_le_antisym a b Hab Hba) as [Epkg Ename].
    rewrite extractServices_unfold, sort_Slice_perm in Ha, Hb.
    rewrite <- Hc in Hb.
    apply list_elem_of_lookup in Ha as [i Hi], Hb as [j Hj].
    assert (i = j) as ->; [|congruence].
    eapply NoDup_lookup; [done| |]; rewrite list_lookup_fmap.
    + by rewrite Hi.
    + rewrite Hj. simpl. by rewrite Epkg, Ename.
  - by rewrite !extractServices_unfold, !sort_Slice_perm.
Qed.

Lemma extractServices_order_independent_witness :
  extractServices [file_accounts; file_investments] "root"
  = extractServices [file_investments; file_accounts] "root".
Proof.
  apply (extractServices_order_independent (H:=model_lib)).
  - apply (bool_decide_unpack _). vm_compute. exact I.
  - apply (bool_decide_unpack _). vm_compute. exact I.
Defined.

(* ================================================================== *)
(** * More on the grouper *)
(* ================================================================== *)

Lemma groupServices_run (services : list Service) (rootPkg : string) :
  ∃ nested,
    groupServices services rootPkg
    = Ok (filter (top_level rootPkg) services, nested) ∧
    ∀ category,
      nested !! category
      = bucket_of (filter (in_category rootPkg category) services).
Proof.
  unfold groupServices.
  induction services as [|svc services IH] using rev_ind.
  - exists ∅. split; [done|]. intros category. by rewrite lookup_empty.
  - destruct IH as (nested & Hrun & Hnested).
    rewrite forEach_app, Hrun. simpl.
    destruct (String.eqb_spec (Service_Package svc) rootPkg) as [Hroot|Hroot].
    + exists nested. split.
      * by rewrite filter_app, filter_cons, filter_nil, decide_True.
      * intros category. rewrite Hnested, filter_app, filter_cons, filter_nil.
        rewrite decide_False by (by intros [? _]). by rewrite app_nil_r.
    + rewrite (filter_app _ services), filter_cons, filter_nil.
      rewrite decide_False, app_nil_r by done.
      case_bool_decide as Hlen.
      * destruct (lookup_lt_is_Some_2 _ _ Hlen) as [c Hc].
        unfold index_at. rewrite Hc. simpl.
        eexists. split; [done|].
        intros category. unfold appendTo.
        rewrite filter_app, filter_cons, filter_nil.
        destruct (decide (c = category)) as [->|Hne].
        -- rewrite lookup_insert_eq, Hnested, bucket_of_default.
           rewrite decide_True by done. by rewrite bucket_of_snoc.
        -- rewrite lookup_insert_ne, Hnested by done.
           rewrite decide_False; [by rewrite app_nil_r|].
           intros [_ Hc']. congruence.
      * exists nested. split; [done|].
        intros category. rewrite Hnested, filter_app, filter_cons, filter_nil.
        rewrite decide_False; [by rewrite app_nil_r|].
        intros [_ Hc%lookup_lt_Some]. lia.
Qed.

Lemma bucket_of_Some (l bucket : list Service) :
  bucket_of l = Some bucket → bucket = l ∧ l ≠ [].
Proof. destruct l; simpl; [done|]. by intros [= <-]. Qed.

(** X12.  Grouping loses no service of the root package or below it: such a
    service is in the top-level list or in a bucket, never in both and never
    in two buckets.  No bucket is empty, and every service in the output was
    in the input. *)
Theorem groupServices_partition (services : list Service) (rootPkg : string) :
  ∃ topLevel nested,
    groupServices services rootPkg = Ok (topLevel, nested) ∧
    (∀ svc, svc ∈ services → under_root rootPkg svc →
            svc ∈ topLevel ∨
            ∃ category bucket, nested !! category = Some bucket ∧ svc ∈ bucket) ∧
    (∀ category bucket,
        nested !! category = Some bucket →
        bucket ≠ [] ∧
        ∀ svc, svc ∈ bucket →
               svc ∈ services ∧ (svc ∉ topLevel) ∧
               ∀ category' bucket',
                 nested !! category' = Some bucket' → svc ∈ bucket' →
                 category' = category) ∧
    (∀ svc, svc ∈ topLevel → svc ∈ services).
Proof.
  destruct (groupServices_run services rootPkg) as (nested & Hrun & Hnested).
  exists (filter (top_level rootPkg) services), nested.
  split; [done|]. split; [|split].
  - intros svc Hin [Hroot|[rest Hbelow]].
    + left. by apply list_elem_of_filter.
    + right.
      pose proof (Split_not_nil rest ".") as Hrest.
      destruct (Split rest ".") as [|category parts] eqn:E; [done|].
      exists category, (filter (in_category rootPkg category) services).
      assert (svc ∈ filter (in_category rootPkg category) services) as Hsvc.
      { apply list_elem_of_filter. split; [|done]. split.
        - rewrite Hbelow. by apply append_cons_ne.
        - by rewrite Hbelow, Split_below, E. }
      split; [|done]. rewrite Hnested.
      destruct (filter (in_category rootPkg category) services);
        [by inv Hsvc|done].
  - intros category bucket Hb. rewrite Hnested in Hb.
    apply bucket_of_Some in Hb as [-> Hne]. split; [done|].
    intros svc [[Hpkg Hcat] Hin]%list_elem_of_filter.
    split; [done|]. split.
    + by intros [? _]%list_elem_of_filter.
    + intros category' bucket' Hb'. rewrite Hnested in Hb'.
      apply bucket_of_Some in Hb' as [-> _].
      intros [[_ Hcat'] _]%list_elem_of_filter. congruence.
  - by intros svc [_ ?]%list_elem_of_filter.
Qed.

(* ================================================================== *)
(** * The fmt import *)
(* ================================================================== *)

Lemma buildPathConstruction_not_empty (path : string) (params : list string) :
  buildPathConstruction path params ≠ "".
Proof. unfold buildPathConstruction. by rewrite append_cons. Qed.

Lemma processMethods_spec (hasFmt : bool) (methods : list Method) :
  (processMethods hasFmt methods).1 = hasFmt || existsb has_params methods ∧
  Forall2 (λ m data,
             MTD_Name data = Method_Name m ∧
             MTD_InputType data = Method_InputType m ∧
             MTD_OutputType data = Method_OutputType m ∧
             MTD_HTTP data = Method_HTTP m ∧
             (MTD_PathConstruction data ≠ "" ↔ has_params m = true) ∧
             ∀ http, Method_HTTP m = Some http →
                     MTD_PathConstruction data
                     = if has_params m
                       then buildPathConstruction (HTTP_Path http)
                              (HTTP_PathParams http)
                       else "")
          (filter (λ m, is_Some (Method_HTTP m)) methods)
          (processMethods hasFmt methods).2.
Proof.
  induction methods as [|m methods [IH1 IH2]] using rev_ind.
  { simpl. split; [by rewrite orb_false_r|constructor]. }
  rewrite processMethods_snoc, existsb_app, filter_app, filter_cons, filter_nil.
  destruct (processMethods hasFmt methods) as [hasFmt' out].
  cbn [fst snd existsb] in *. rewrite orb_false_r.
  destruct (Method_HTTP m) as [http|] eqn:E.
  - rewrite decide_True by done.
    destruct (decide (0 < length (HTTP_PathParams http))%nat) as [Hp|Hp].
    + assert (has_params m = true) as Hhp.
      { unfold has_params. rewrite E. by apply bool_decide_eq_true_2. }
      rewrite bool_decide_eq_true_2 by done. rewrite Hhp. cbn [fst snd].
      split; [by rewrite !orb_true_r|].
      apply Forall2_app; [done|]. constructor; [|constructor]. cbn.
      rewrite Hhp. repeat split; try done;
        first [ intros _; apply buildPathConstruction_not_empty
              | intros http0 Hh; congruence ].
    + assert (has_params m = false) as Hhp.
      { unfold has_params. rewrite E. by apply bool_decide_eq_false_2. }
      rewrite bool_decide_eq_false_2 by done. rewrite Hhp. cbn [fst snd].
      split; [by rewrite IH1, !orb_false_r|].
      apply Forall2_app; [done|]. constructor; [|constructor]. cbn.
      rewrite Hhp. repeat split; try done.
  - assert (has_params m = false) as Hhp.
    { unfold has_params. by rewrite E. }
    rewrite decide_False by (by intros []). rewrite Hhp. cbn [fst snd].
    split; [by rewrite IH1, !orb_false_r|]. by rewrite !app_nil_r.
Qed.

(** X13.  The file of a service imports package fmt exactly when one of its
    methods builds its path with [fmt.Sprintf], which is the case exactly
    for the bound methods whose path has parameters; the other bound methods
    carry no path construction and use their path as a literal.  Each method
    of the file has the names and the binding of the method it comes from. *)
Theorem serviceTemplateData_fmt (svc : Service) (cfg : ClientConfig) :
  let data := serviceTemplateData svc cfg in
  (STD_HasFmt data = true ↔
   Exists (λ m, MTD_PathConstruction m ≠ "") (STD_Methods data)) ∧
  STD_HasFmt data = existsb has_params (Service_Methods svc) ∧
  Forall2 (λ m md,
             MTD_Name md = Method_Name m ∧
             MTD_InputType md = Method_InputType m ∧
             MTD_OutputType md = Method_OutputType m ∧
             MTD_HTTP md = Method_HTTP m ∧
             (MTD_PathConstruction md ≠ "" ↔ has_params m = true))
          (filter (λ m, is_Some (Method_HTTP m)) (Service_Methods svc))
          (STD_Methods data).
Proof.
  unfold serviceTemplateData.
  destruct (processMethods_spec false (Service_Methods svc)) as [H1 H2].
  destruct (processMethods false (Service_Methods svc)) as [hasFmt methods].
  simpl in *. subst hasFmt.
  assert (Forall2 (λ m md,
             MTD_Name md = Method_Name m ∧
             MTD_InputType md = Method_InputType m ∧
             MTD_OutputType md = Method_OutputType m ∧
             MTD_HTTP md = Method_HTTP m ∧
             (MTD_PathConstruction md ≠ "" ↔ has_params m = true))
          (filter (λ m, is_Some (Method_HTTP m)) (Service_Methods svc))
          methods) as H3.
  { eapply Forall2_impl; [done|]. by intros m md (? & ? & ? & ? & ? & _). }
  split; [|done].
  rewrite Exists_exists. split.
  - intros (m & Hin & Hm)%existsb_exists.
    apply list_elem_of_In in Hin.
    assert (m ∈ filter (λ m, is_Some (Method_HTTP m)) (Service_Methods svc)) as Hin'.
    { apply list_elem_of_filter. split; [|done].
      unfold has_params in Hm. by destruct (Method_HTTP m). }
    apply list_elem_of_lookup in Hin' as [i Hi].
    destruct (Forall2_lookup_l _ _ _ _ _ H3 Hi) as (md & Hmd & Hrel).
    exists md. split; [by eapply list_elem_of_lookup_2|]. by apply Hrel.
  - intros (md & [i Hi]%list_elem_of_lookup & Hmd).
    destruct (Forall2_lookup_r _ _ _ _ _ H3 Hi) as (m & Hm & Hrel).
    apply existsb_exists. exists m. split; [|by apply Hrel].
    apply list_elem_of_In.
    apply list_elem_of_lookup_2 in Hm.
    by apply list_elem_of_filter in Hm as [_ ?].
Qed.

(* ================================================================== *)
(** * The test table and the scenarios of the specification *)
(* ================================================================== *)

(** TestGenerateInterfaceName, TestGenerateImplName and
    TestGeneratePrivateFieldName. *)
Example test_generateInterfaceName :
  generateInterfaceName <$>
    ["AccountsService"; "IniciadorClient"; "TreasureTitlesService";
     "InvestmentsClient"; "AuthService"; ""]
  = ["AccountsService"; "IniciadorClient"; "TreasureTitlesService";
     "InvestmentsClient"; "AuthService"; ""].
Proof. reflexivity. Qed.

Example test_generateImplName :
  generateImplName <$>
    ["AccountsService"; "IniciadorClient"; "TreasureTitlesService";
     "InvestmentsClient"; "AuthService"; ""]
  = ["AccountsServiceImpl"; "IniciadorClientImpl"; "TreasureTitlesServiceImpl";
     "InvestmentsClientImpl"; "AuthServiceImpl"; "Impl"].
Proof. reflexivity. Qed.

Example test_generatePrivateFieldName :
  generatePrivateFieldName <$>
    ["AccountsService"; "IniciadorClient"; "TreasureTitlesService";
     "InvestmentsClient"; "AuthService"; "LinksService"; ""]
  = ["accounts"; "iniciador"; "treasureTitles"; "investments"; "auth";
     "links"; ""].
Proof. reflexivity. Qed.

(** The examples in the comments of extractPathParams, snakeToPascal,
    computeImportSuffix and buildPathConstruction. *)
Example extractPathParams_examples :
  extractPathParams "/v1/data/links/{id}" = ["id"] ∧
  extractPathParams "/v1/data/links/{link_id}/data/investments/{investment_id}"
    = ["link_id"; "investment_id"] ∧
  extractPathParams "/v1/a/{id}/b/{id}" = ["id"; "id"] ∧
  extractPathParams "/v1/plain" = [].
Proof. by vm_compute. Qed.

Example snakeToPascal_examples :
  snakeToPascal "link_id" = "LinkId" ∧
  snakeToPascal "investment_id" = "InvestmentId".
Proof. by vm_compute. Qed.

Example computeImportSuffix_examples :
  computeImportSuffix "vendors.iniciador" "vendors.iniciador" = "" ∧
  computeImportSuffix "vendors.iniciador.investments" "vendors.iniciador"
    = "/investments" ∧
  computeImportSuffix "vendors.other.api.v1" "vendors.other" = "/api/v1" ∧
  computeImportSuffix "foo.barx" "foo.bar" = "".
Proof. by vm_compute. Qed.

Example buildPathConstruction_examples :
  buildPathConstruction "/v1/data/links/{id}" ["id"]
    = "fmt.Sprintf(" ++ dq ++ "/v1/data/links/%s" ++ dq ++ ", req.Id)" ∧
  buildPathConstruction "/v1/data/links/{link_id}/investments/{investment_id}"
      ["link_id"; "investment_id"]
    = "fmt.Sprintf(" ++ dq ++ "/v1/data/links/%s/investments/%s" ++ dq
        ++ ", req.LinkId, req.InvestmentId)".
Proof. by vm_compute. Qed.

Example parseClientConfig_example :
  parseClientConfig {[ "client" := "vendors.iniciador:client" ]}
  = Ok {| RootPackage := "vendors.iniciador";
          OutputSubdir := "client";
          ClientName := "IniciadorClient";
          GoModulePath := "github.com/getfrontierhq/schema/pkg/go";
          HTTPClientPkg := "github.com/getfrontierhq/schema/pkg/go/client/http" |}.
Proof. by vm_compute. Qed.

(** Grouping: one service in the root package and two in a package below
    it. *)
Example groupServices_example :
  let svc name pkg :=
    {| Service_Name := name; Service_Package := pkg;
       Service_GoPackage := ""; Service_Methods := [] |} in
  groupServices
    [svc "AccountsService" "root"; svc "FundsService" "root.investments";
     svc "TreasureTitlesService" "root.investments"] "root"
  = Ok ([svc "AccountsService" "root"],
        {[ "investments" := [svc "FundsService" "root.investments";
                             svc "TreasureTitlesService" "root.investments"] ]}).
Proof. by vm_compute. Qed.

(** A service next to the root package, which the collector lets through,
    is dropped by the grouper; one below it lands in a category of the
    root. *)
Example groupServices_next_to_root :
  let svc name pkg :=
    {| Service_Name := name; Service_Package := pkg;
       Service_GoPackage := ""; Service_Methods := [] |} in
  groupServices [svc "XService" "foo.barx"; svc "YService" "foo.barx.v1"] "foo.bar"
  = Ok ([], {[ "v1" := [svc "YService" "foo.barx.v1"] ]}).
Proof. by vm_compute. Qed.

(** The round trip: AccountsService in the root package and
    TreasureTitlesService one level below give the runtime file, one file
    for the service, one for the category and the root client, in this
    order. *)
Example Execute_round_trip :
  (λ artifacts, artifacts.*1) <$>
    Execute "package http" order_backward order_backward order_backward
      example_params example_targets
  = Ok ["client/http/client.gen.go"; "client/accounts.gen.go";
        "client/investments.gen.go"; "client/client.gen.go"].
Proof. by vm_compute. Qed.

Example Execute_round_trip_content :
  match Execute "package http" order_forward order_forward order_forward
          example_params example_targets with
  | Ok [(_, base); (_, accounts); (_, investments); (_, root)] =>
      base = "package http" ∧
      contains accounts
        ("path := fmt.Sprintf(" ++ dq ++ "/v1/accounts/%s" ++ dq ++ ", req.Id)") = true ∧
      contains accounts "Ping" = false ∧
      contains investments ("path := " ++ dq ++ "/v1/investments" ++ dq) = true ∧
      contains investments "err := s.client.Post(ctx, path, req, resp)" = true ∧
      contains root "GetAccounts() AccountsService" = true ∧
      contains root "GetInvestments() InvestmentsClient" = true
  | _ => False
  end.
Proof. by vm_compute. Qed.

(* ================================================================== *)
(** * More on the configuration parser *)
(* ================================================================== *)

Lemma HasPrefix_byte (d c : ascii) (s : string) :
  HasPrefix (String d s) (String c "") = Ascii.eqb d c.
Proof. simpl. by rewrite andb_true_r, Ascii.eqb_sym. Qed.

Lemma Index_byte_absent (s : string) (c : ascii) :
  has_byte c s = false → Index s (String c "") = None.
Proof.
  induction s as [|d s IH]; [done|]. simpl has_byte.
  intros [Hd Hs]%orb_false_iff.
  rewrite Index_unfold, HasPrefix_byte, Hd. by rewrite IH.
Qed.

Lemma Index_byte_first (a b : string) (c : ascii) :
  has_byte c a = false →
  Index (a ++ String c b) (String c "") = Some (String.length a).
Proof.
  induction a as [|d a IH].
  - intros _. by rewrite append_nil_l, Index_unfold, HasPrefix_byte, Ascii.eqb_refl.
  - simpl has_byte. intros [Hd Ha]%orb_false_iff.
    rewrite append_cons, Index_unfold, HasPrefix_byte, Hd. by rewrite IH.
Qed.

Lemma str_take_all (s : string) : str_take (String.length s) s = s.
Proof. by rewrite <- (append_nil_r s) at 2; rewrite str_take_app. Qed.

Lemma SplitN2_first (a b : string) (c : ascii) :
  has_byte c a = false → SplitN2 (a ++ String c b) c = [a; b].
Proof.
  intros Ha. unfold SplitN2. rewrite Index_byte_first by done.
  rewrite str_take_app.
  change (S (String.length a)) with (1 + String.length a)%nat.
  rewrite Nat.add_comm, str_drop_app_add. done.
Qed.

Lemma index_at_last (parts : list string) :
  parts ≠ [] → index_at parts (length parts - 1) = Ok (last_segment parts).
Proof.
  intros Hne. unfold index_at, last_segment. rewrite last_lookup.
  replace (pred (length parts)) with (length parts - 1)%nat by lia.
  destruct (lookup_lt_is_Some_2 parts (length parts - 1)) as [x ->]; [|done].
  destruct parts; [done|]. simpl. lia.
Qed.

Lemma capitalize_spec (s : string) :
  capitalize s = if String.eqb s "" then Panic "slice bounds out of range"
                 else Ok (upperFirst s).
Proof.
  destruct s as [|c s]; [done|]. unfold capitalize, slice.
  rewrite !bool_decide_eq_true_2 by (simpl; lia). simpl.
  by rewrite Nat.sub_0_r, str_take_all.
Qed.

(** X14.  The whole of parseClientConfig on a parameter with a colon.  The
    parameter is cut at its first colon, so that the output subdirectory may
    hold colons; both sides lose the white space around them; the client
    name is the last segment of the root package with its first byte in
    upper case, followed by "Client"; the module path is the parameter
    go_module_path, or the default one when that is missing or empty; the
    package of the HTTP client is the module path, the subdirectory and
    "http".  The one failure is the panic on an empty last segment. *)
Theorem parseClientConfig_spec (params : gmap string string) (a b : string) :
  Str params "client" = a ++ ":" ++ b →
  has_byte ":" a = false →
  let root := TrimSpace a in
  let subdir := TrimSpace b in
  let lastPart := last_segment (Split root ".") in
  let modulePath :=
    if String.eqb (Str params "go_module_path") ""
    then "github.com/getfrontierhq/schema/pkg/go"
    else Str params "go_module_path" in
  parseClientConfig params =
  if String.eqb lastPart "" then Panic "slice bounds out of range"
  else Ok {| RootPackage := root;
             OutputSubdir := subdir;
             ClientName := upperFirst lastPart ++ "Client";
             GoModulePath := modulePath;
             HTTPClientPkg := modulePath ++ "/" ++ subdir ++ "/http" |}.
Proof.
  intros Hclient Ha. simpl. unfold parseClientConfig. rewrite Hclient.
  destruct (String.eqb_spec (a ++ ":" ++ b) "") as [E|_].
  { apply append_eq_nil in E as [_ E]. done. }
  change (a ++ ":" ++ b) with (a ++ String ":" b).
  rewrite SplitN2_first by done. simpl.
  rewrite index_at_last by apply Split_not_nil. simpl.
  pose proof (capitalize_spec (last_segment (Split (TrimSpace a) "."))) as Hcap.
  unfold capitalize in Hcap.
  destruct (String.eqb_spec (last_segment (Split (TrimSpace a) ".")) "") as [E|N].
  - rewrite E. done.
  - destruct (slice _ 0 1) as [initial| |]; simpl in *; try done.
    destruct (slice _ 1 _) as [rest| |]; simpl in *; try done.
    injection Hcap as <-. by rewrite append_assoc.
Qed.

Lemma parseClientConfig_spec_witness :
  parseClientConfig {[ "client" := " vendors.iniciador : out:dir " ]}
  = Ok {| RootPackage := "vendors.iniciador";
          OutputSubdir := "out:dir";
          ClientName := "IniciadorClient";
          GoModulePath := "github.com/getfrontierhq/schema/pkg/go";
          HTTPClientPkg := "github.com/getfrontierhq/schema/pkg/go/out:dir/http" |}.
Proof.
  rewrite (parseClientConfig_spec {[ "client" := " vendors.iniciador : out:dir " ]}
             " vendors.iniciador " " out:dir ").
  - reflexivity.
  - reflexivity.
  - reflexivity.
Defined.

(** X15.  A missing or empty client parameter, or one without colon, is a
    configuration error, and the run ends with that error before any file
    is read or produced. *)
Theorem Execute_config_rejected (params : gmap string string) :
  has_byte ":" (Str params "client") = false →
  ∃ msg,
    parseClientConfig params = Err msg ∧
    ∀ (lib : GoLib) code o1 o2 o3 targets,
      Execute code o1 o2 o3 params targets = Err msg.
Proof.
  intros Hc.
  assert (is_Err (parseClientConfig params) = true) as Herr.
  { unfold parseClientConfig.
    destruct (String.eqb (Str params "client") ""); [done|].
    unfold SplitN2. by rewrite Index_byte_absent. }
  destruct (parseClientConfig params) as [|msg|] eqn:E; try done.
  exists msg. split; [done|]. intros lib code o1 o2 o3 targets.
  unfold Execute. by rewrite E.
Qed.

Lemma Execute_config_rejected_witness :
  ∃ msg, parseClientConfig {[ "client" := "vendors.iniciador" ]} = Err msg.
Proof.
  destruct (Execute_config_rejected {[ "client" := "vendors.iniciador" ]})
    as (msg & Hmsg & _).
  - reflexivity.
  - by exists msg.
Defined.

(* ================================================================== *)
(** * When generation succeeds *)
(* ================================================================== *)

Lemma nestedServices_bound (hasFmt : bool) (acc : list ServiceTemplateData)
    (services : list Service) :
  Forall (λ svc, Forall (λ m, is_Some (MTD_HTTP m)) (STD_Methods svc)) acc →
  Forall (λ svc, Forall (λ m, is_Some (MTD_HTTP m)) (STD_Methods svc))
    (foldl (λ '(hasFmt, out) svc,
              let '(hasFmt, methods) := processMethods hasFmt (Service_Methods svc) in
              (hasFmt,
               (out ++ [{| STD_ServiceName := Service_Name svc;
                           STD_ImportSuffix := "";
                           STD_HasFmt := false;
                           STD_Methods := methods;
                           STD_HTTPClientPkg := "";
                           STD_ProtoPackage := "";
                           STD_InterfaceName := generateInterfaceName (Service_Name svc);
                           STD_ImplName := generateImplName (Service_Name svc);
                           STD_PrivateField :=
                             generatePrivateFieldName (Service_Name svc) |}])%list))
           (hasFmt, acc) services).2.
Proof.
  revert hasFmt acc. induction services as [|svc services IH]; intros hasFmt acc Hacc.
  - done.
  - simpl.
    pose proof (processMethods_bound hasFmt (Service_Methods svc)) as Hb.
    destruct (processMethods hasFmt (Service_Methods svc)) as [hasFmt' methods].
    apply IH. apply Forall_app. split; [done|]. by repeat constructor.
Qed.

Lemma nestedServicesFileTemplate_ok (data : NestedServicesTemplateData) :
  Forall (λ svc, Forall (λ m, is_Some (MTD_HTTP m)) (STD_Methods svc))
    (NSTD_Services data) →
  is_Ok (nestedServicesFileTemplate data) = true.
Proof.
  intros Hb. unfold nestedServicesFileTemplate.
  apply is_Ok_bind; [|done].
  apply renderRange_ok. eapply Forall_impl; [done|].
  intros svc Hsvc. simpl. apply is_Ok_bind; [|done].
  by apply renderServiceBody_ok.
Qed.

Lemma generateNestedServices_cases (category : string)
    (services : list Service) (cfg : ClientConfig) :
  is_Ok (generateNestedServices category services cfg)
  = negb (String.eqb category "") ∧
  is_Err (generateNestedServices category services cfg) = false ∧
  generateNestedServices "" services cfg = Panic "slice bounds out of range".
Proof.
  unfold generateNestedServices. rewrite !capitalize_spec.
  destruct (String.eqb category ""); [done|]. simpl.
  pose proof (nestedServicesFileTemplate_ok
                (nestedServicesTemplateData (upperFirst category) category
                   services cfg)) as Hok.
  destruct (nestedServicesFileTemplate _); [done| |];
    (discriminate Hok || (exfalso; revert Hok)).
  all: unfold nestedServicesTemplateData;
    pose proof (nestedServices_bound false [] services (Forall_nil_2 _)) as Hb;
    destruct (foldl _ _ services); simpl in *; auto.
Qed.

(** X16.  generateNestedServices returns a file for every category but the empty
    one, on which it panics; it never returns an error. *)
Theorem generateNestedServices_outcome (category : string)
    (services : list Service) (cfg : ClientConfig) :
  is_Ok (generateNestedServices category services cfg)
  = negb (String.eqb category "") ∧
  is_Err (generateNestedServices category services cfg) = false ∧
  generateNestedServices "" services cfg = Panic "slice bounds out of range".
Proof. apply generateNestedServices_cases. Qed.

(** The loop of generateRootClient over the categories: it goes through
    when no category is empty. *)
Lemma nestedClients_loop `{GoLib} (nested : gmap string (list Service))
    (categories : list string) (acc : list NestedClientInfo) :
  Forall (λ category, category ≠ "") categories →
  is_Ok
    (forEach (λ out category,
               let services := default [] (nested !! category) in
               let services := sort_Slice name_less services in
               categoryCapitalized ← capitalize category;
               let nestedClient :=
                 {| NCI_FieldName := categoryCapitalized;
                    NCI_TypeName := categoryCapitalized ++ "Client";
                    NCI_ImplName := generateImplName (categoryCapitalized ++ "Client");
                    NCI_InterfaceName :=
                      generateInterfaceName (categoryCapitalized ++ "Client");
                    NCI_PrivateField :=
                      generatePrivateFieldName (categoryCapitalized ++ "Client");
                    NCI_Services :=
                      foldl (λ out svc,
                               (out ++ [serviceInfo (Service_Name svc) svc])%list)
                            [] services |} in
               Ok (out ++ [nestedClient])%list)
            acc categories) = true.
Proof.
  intros Hcats. revert acc.
  induction Hcats as [|category categories Hc _ IH]; intros acc; simpl; [done|].
  rewrite capitalize_spec.
  destruct (String.eqb_spec category ""); [done|]. simpl. apply IH.
Qed.

Lemma keys_not_empty `{GoLib} (nested : gmap string (list Service)) :
  nested !! "" = None →
  Forall (λ category, category ≠ "") (sort_Strings (map_to_list nested).*1).
Proof.
  intros Hn. apply Forall_forall. intros category Hin ->.
  unfold sort_Strings in Hin. rewrite sort_Slice_perm in Hin.
  apply list_elem_of_fmap in Hin as ([k v] & Hk & Hin). simpl in Hk. subst k.
  apply elem_of_map_to_list in Hin. congruence.
Qed.

Lemma generateRootClient_ok `{GoLib} (o : MapOrder) (clientName : string)
    (topLevel : list Service) (nested : gmap string (list Service))
    (cfg : ClientConfig) :
  nested !! "" = None →
  is_Ok (generateRootClient o clientName topLevel nested cfg) = true.
Proof.
  intros Hn. unfold generateRootClient.
  rewrite sorted_categories_order.
  apply is_Ok_bind; [|done].
  by apply nestedClients_loop, keys_not_empty.
Qed.

Lemma forEach_no_Err {A S} (body : S → A → outcome S) (s : S) (l : list A) :
  (∀ s x, is_Err (body s x) = false) → is_Err (forEach body s l) = false.
Proof.
  intros Hbody. revert s. induction l as [|x l IH]; intros s; simpl; [done|].
  specialize (Hbody s x). destruct (body s x); simpl; auto.
Qed.

Lemma forEach_not_Ok {A S} (body : S → A → outcome S) (s : S) (l : list A) (x : A) :
  x ∈ l → (∀ s, is_Ok (body s x) = false) → is_Ok (forEach body s l) = false.
Proof.
  intros Hx Hbody. revert s.
  induction Hx as [x l|x y l Hx IH]; intros s; simpl.
  - specialize (Hbody s). by destruct (body s x).
  - destruct (body s y); simpl; auto.
Qed.

(** X17.  generateRootClient returns the file of the root client unless the map
    of the categories has the empty category, on which it panics; it never
    returns an error. *)
Theorem generateRootClient_outcome `{GoLib} (o : MapOrder) (clientName : string)
    (topLevel : list Service) (nested : gmap string (list Service))
    (cfg : ClientConfig) :
  is_Ok (generateRootClient o clientName topLevel nested cfg)
  = bool_decide (nested !! "" = None) ∧
  is_Err (generateRootClient o clientName topLevel nested cfg) = false.
Proof.
  case_bool_decide as Hn.
  - pose proof (generateRootClient_ok o clientName topLevel nested cfg Hn) as Hok.
    by destruct (generateRootClient _ _ _ _ _).
  - unfold generateRootClient. rewrite sorted_categories_order.
    match goal with
    | |- context [forEach ?body ?s ?l] =>
        pose proof (forEach_no_Err body s l) as Herr;
        pose proof (forEach_not_Ok body s l "") as Hok
    end.
    destruct (forEach _ _ _); simpl.
    + exfalso. assert (true = false); [|done]. apply Hok.
      * unfold sort_Strings. rewrite sort_Slice_perm.
        destruct (nested !! "") as [bucket|] eqn:E; [|done].
        apply list_elem_of_fmap. exists ("", bucket). split; [done|].
        by apply elem_of_map_to_list.
      * intros s. by rewrite capitalize_spec.
    + exfalso. assert (true = false); [|done]. apply Herr.
      intros s x. rewrite capitalize_spec. by destruct (String.eqb x "").
    + done.
Qed.

(** X18.  The file of a category imports package fmt exactly when a method of one
    of its services has path parameters. *)
Theorem nestedServicesTemplateData_fmt (capitalized category : string)
    (services : list Service) (cfg : ClientConfig) :
  NSTD_HasFmt (nestedServicesTemplateData capitalized category services cfg)
  = existsb (λ svc, existsb has_params (Service_Methods svc)) services ∧
  STD_ServiceName <$>
    NSTD_Services (nestedServicesTemplateData capitalized category services cfg)
  = Service_Name <$> services.
Proof.
  unfold nestedServicesTemplateData.
  match goal with
  | |- context [foldl ?f (false, []) services] =>
      assert (∀ hasFmt acc,
                (foldl f (hasFmt, acc) services).1
                = hasFmt || existsb (λ svc, existsb has_params (Service_Methods svc))
                              services ∧
                STD_ServiceName <$> (foldl f (hasFmt, acc) services).2
                = ((STD_ServiceName <$> acc) ++ (Service_Name <$> services))%list)
        as Hloop
  end.
  { induction services as [|svc services IH]; intros hasFmt acc; simpl.
    - by rewrite orb_false_r, app_nil_r.
    - destruct (processMethods_spec hasFmt (Service_Methods svc)) as [H1 _].
      destruct (processMethods hasFmt (Service_Methods svc)) as [hasFmt' methods].
      simpl in H1. subst hasFmt'.
      destruct (IH (hasFmt || existsb has_params (Service_Methods svc))
                  (acc ++ [{| STD_ServiceName := Service_Name svc;
                              STD_ImportSuffix := "";
                              STD_HasFmt := false;
                              STD_Methods := methods;
                              STD_HTTPClientPkg := "";
                              STD_ProtoPackage := "";
                              STD_InterfaceName := generateInterfaceName (Service_Name svc);
                              STD_ImplName := generateImplName (Service_Name svc);
                              STD_PrivateField :=
                                generatePrivateFieldName (Service_Name svc) |}])%list)
        as [IH1 IH2].
      split.
      + by rewrite IH1, orb_assoc.
      + by rewrite IH2, fmap_app, <- app_assoc. }
  destruct (Hloop false []) as [H1 H2].
  destruct (foldl _ _ services) as [hasFmt svcs]. simpl in *. by rewrite H1, H2.
Qed.

(** The loop over the top-level services: one file is added for each. *)
Lemma topLevel_loop `{GoLib} (cfg : ClientConfig) (artifacts : list Artifact)
    (services : list Service) :
  ∃ added,
    forEach (λ artifacts svc,
               let serviceName :=
                 ToLower (TrimSuffix (Service_Name svc) "Service") in
               let filename :=
                 filepath_Join [OutputSubdir cfg; serviceName ++ ".gen.go"] in
               addGenerated artifacts filename (generateService svc cfg))
            artifacts services = Ok (artifacts ++ added)%list ∧
    added.*1 = service_file cfg <$> services ∧
    Forall2 (λ svc file, generateService svc cfg = Ok file.2) services added.
Proof.
  revert artifacts. induction services as [|svc services IH]; intros artifacts.
  - exists []. by rewrite app_nil_r.
  - simpl. pose proof (generateService_ok svc cfg) as Hok.
    destruct (generateService svc cfg) as [code| |] eqn:E; try done. simpl.
    destruct (IH (artifacts ++ [(service_file cfg svc, code)])%list)
      as (added & Hrun & Hnames & Hcode).
    unfold service_file in *.
    eexists (_ :: added).
    split; [by rewrite Hrun, <- app_assoc|].
    split; [by rewrite fmap_cons, Hnames|]. by constructor.
Qed.

(** The loop over the categories: one file is added for each, when none is
    empty; the buckets are sorted in place and the keys stay the same. *)
Lemma categories_loop `{GoLib} (cfg : ClientConfig) (artifacts : list Artifact)
    (nested : gmap string (list Service)) (categories : list string) :
  Forall (λ category, category ≠ "") categories →
  nested !! "" = None →
  ∃ added nested',
    forEach (λ '(artifacts, nested) category,
               let categoryServices := default [] (nested !! category) in
               let categoryServices := sort_Slice name_less categoryServices in
               let nested := <[category := categoryServices]> nested in
               let filename :=
                 filepath_Join [OutputSubdir cfg; ToLower category ++ ".gen.go"] in
               artifacts ←
                 addGenerated artifacts filename
                   (generateNestedServices category categoryServices cfg);
               Ok (artifacts, nested))
            (artifacts, nested) categories
    = Ok ((artifacts ++ added)%list, nested') ∧
    added.*1 = category_file cfg <$> categories ∧
    nested' !! "" = None.
Proof.
  intros Hcats. revert artifacts nested.
  induction Hcats as [|category categories Hc _ IH]; intros artifacts nested Hn.
  - exists [], nested. by rewrite app_nil_r.
  - simpl.
    destruct (generateNestedServices_cases category
                (sort_Slice name_less (default [] (nested !! category))) cfg)
      as (Hok & _ & _).
    rewrite (proj2 (String.eqb_neq _ _) Hc) in Hok.
    destruct (generateNestedServices category _ cfg) as [code| |]; try done.
    simpl.
    destruct (IH (artifacts ++ [(category_file cfg category, code)])%list
                (<[category := sort_Slice name_less (default [] (nested !! category))]>
                   nested))
      as (added & nested' & Hrun & Hnames & Hn').
    { by rewrite lookup_insert_ne. }
    unfold category_file in *.
    eexists (_ :: added), nested'.
    split; [by rewrite Hrun, <- app_assoc|].
    split; [by rewrite fmap_cons, Hnames|done].
Qed.

Lemma Execute_run `{GoLib} (code : string) (o1 o2 o3 : MapOrder)
    (params : gmap string string) (targets : gmap string PgsFile)
    (cfg : ClientConfig) :
  map_Forall (λ key file, File_Name file = key) targets →
  parseClientConfig params = Ok cfg →
  ∃ topLevel nested,
    groupServices (collected_services cfg targets) (RootPackage cfg)
    = Ok (topLevel, nested) ∧
    (nested !! "" = None →
     ∃ services categories root,
       Execute code o1 o2 o3 params targets
       = Ok ([(filepath_Join [OutputSubdir cfg; "http"; "client.gen.go"], code)]
             ++ services ++ categories
             ++ [(filepath_Join [OutputSubdir cfg; "client.gen.go"], root)])%list ∧
       services.*1 = service_file cfg <$> sort_Slice name_less topLevel ∧
       Forall2 (λ svc file, generateService svc cfg = Ok file.2)
         (sort_Slice name_less topLevel) services ∧
       categories.*1 = category_file cfg <$> sort_Strings (map_to_list nested).*1).
Proof.
  intros Hkeys Hcfg.
  destruct (groupServices_run (collected_services cfg targets) (RootPackage cfg))
    as (nested & Hgroup & _).
  eexists _, nested. split; [done|]. intros Hn.
  unfold Execute. rewrite Hcfg. simpl.
  rewrite sorted_files_order by done.
  unfold collected_services in Hgroup. rewrite Hgroup. simpl.
  destruct (topLevel_loop cfg
              [(filepath_Join [OutputSubdir cfg; "http"; "client.gen.go"], code)]
              (sort_Slice name_less
                 (filter (top_level (RootPackage cfg))
                    (collected_services cfg targets))))
    as (services & Hrun1 & Hnames1 & Hcode1).
  unfold collected_services in *. rewrite Hrun1. simpl.
  rewrite sorted_categories_order.
  destruct (categories_loop cfg
              ((filepath_Join [OutputSubdir cfg; "http"; "client.gen.go"], code)
               :: services)
              nested (sort_Strings (map_to_list nested).*1)
              (keys_not_empty nested Hn) Hn)
    as (categories & nested' & Hrun2 & Hnames2 & Hn').
  match goal with
  | |- context [forEach ?body ?state ?l ≫= _] =>
      assert (forEach body state l
              = Ok ((((filepath_Join [OutputSubdir cfg; "http"; "client.gen.go"],
                       code) :: services) ++ categories)%list, nested')) as ->
        by exact Hrun2
  end.
  simpl.
  pose proof (generateRootClient_ok o3 (ClientName cfg)
                (sort_Slice name_less
                   (filter (top_level (RootPackage cfg))
                      (extractServices
                         (sort_Slice file_less (map_to_list targets).*2)
                         (RootPackage cfg))))
                nested' cfg Hn') as Hroot.
  destruct (generateRootClient _ _ _ nested' cfg) as [root| |]; try done.
  exists services, categories, root. simpl.
  split; [by rewrite <- !app_assoc|]. done.
Qed.

(** On a string of ASCII bytes [strings.ToLower] maps byte by byte, and the
    pieces that the generator cuts out of such a string are ASCII. *)
Lemma ToLower_ascii (s : string) :
  ascii_only s = true → ToLower s = map_bytes lowerByte s.
Proof.
  destruct s as [|c [|c' s]]; try done.
  simpl. rewrite andb_true_r. unfold ToLower. by intros ->.
Qed.

Lemma ascii_only_str_take (n : nat) (s : string) :
  ascii_only s = true → ascii_only (str_take n s) = true.
Proof.
  revert s. induction n as [|n IH]; intros [|c s]; simpl; try done.
  intros [Hc Hs]%andb_true_iff. rewrite Hc. simpl. by apply IH.
Qed.

Lemma ascii_only_TrimSuffix (s suffix : string) :
  ascii_only s = true → ascii_only (TrimSuffix s suffix) = true.
Proof.
  intros Hs. unfold TrimSuffix. destruct (HasSuffix s suffix); [|done].
  by apply ascii_only_str_take.
Qed.

Lemma ascii_only_Split (s : string) (sep : ascii) :
  ascii_only s = true → Forall (λ part, ascii_only part = true) (Split s sep).
Proof.
  induction s as [|c s IH]; [by repeat constructor|].
  simpl ascii_only. intros [Hc Hs]%andb_true_iff. specialize (IH Hs).
  rewrite Split_cons. destruct (Ascii.eqb c sep); [by constructor|].
  destruct (Split s sep) as [|part parts].
  - repeat constructor. simpl. by rewrite Hc.
  - inv IH. constructor; [|done]. simpl. by rewrite Hc.
Qed.

Lemma collected_services_ascii `{GoLib} (cfg : ClientConfig)
    (targets : gmap string PgsFile) (svc : Service) :
  map_Forall (λ _ file,
                ascii_only (File_Package file) = true ∧
                Forall (λ decl, ascii_only (pgs_Service_Name decl) = true)
                       (File_Services file)) targets →
  svc ∈ collected_services cfg targets →
  ascii_only (Service_Name svc) = true ∧ ascii_only (Service_Package svc) = true.
Proof.
  intros Hascii Hin. unfold collected_services in Hin.
  apply extractServices_elem_of in Hin as (file & decl & Hfile & _ & Hdecl & ->).
  apply sort_Slice_elem_of in Hfile.
  apply list_elem_of_fmap in Hfile as ([key file'] & -> & Hfile).
  apply elem_of_map_to_list in Hfile.
  destruct (Hascii key file' Hfile) as [Hpkg Hnames]. simpl in *.
  split; [|done]. rewrite Forall_forall in Hnames. by apply Hnames.
Qed.

(** X19.  What a run produces, for target files whose packages and service
    names are ASCII, as protobuf identifiers are.  With a configuration that
    parses and target files keyed by their names, the grouping succeeds; and
    when no category is empty the run succeeds, and the names of its files
    are, in this order: the runtime file, whose content is the static text;
    one file for each top-level service, in the order of their names, named
    by the service name without its suffix "Service", in lower case byte by
    byte; one file for each category, in the order of the categories, named
    by the category in lower case byte by byte; the file of the root client.
    The content of the file of a top-level service is what generateService
    gives for it. *)
Theorem Execute_files `{GoLib} (code : string) (o1 o2 o3 : MapOrder)
    (params : gmap string string) (targets : gmap string PgsFile)
    (cfg : ClientConfig) :
  map_Forall (λ key file, File_Name file = key) targets →
  map_Forall (λ _ file,
                ascii_only (File_Package file) = true ∧
                Forall (λ decl, ascii_only (pgs_Service_Name decl) = true)
                       (File_Services file)) targets →
  parseClientConfig params = Ok cfg →
  ∃ topLevel nested,
    groupServices (collected_services cfg targets) (RootPackage cfg)
    = Ok (topLevel, nested) ∧
    (nested !! "" = None →
     ∃ services categories root,
       Execute code o1 o2 o3 params targets
       = Ok ([(filepath_Join [OutputSubdir cfg; "http"; "client.gen.go"], code)]
             ++ services ++ categories
             ++ [(filepath_Join [OutputSubdir cfg; "client.gen.go"], root)])%list ∧
       services.*1
       = (λ svc,
            filepath_Join
              [OutputSubdir cfg;
               map_bytes lowerByte (TrimSuffix (Service_Name svc) "Service")
               ++ ".gen.go"])
         <$> sort_Slice name_less topLevel ∧
       Forall2 (λ svc file, generateService svc cfg = Ok file.2)
         (sort_Slice name_less topLevel) services ∧
       categories.*1
       = (λ category,
            filepath_Join
              [OutputSubdir cfg; map_bytes lowerByte category ++ ".gen.go"])
         <$> sort_Strings (map_to_list nested).*1).
Proof.
  intros Hkeys Hascii Hcfg.
  destruct (groupServices_run (collected_services cfg targets) (RootPackage cfg))
    as (nested & Hgroup & Hnested).
  destruct (Execute_run code o1 o2 o3 params targets cfg Hkeys Hcfg)
    as (topLevel & nested' & Hgroup' & Hrun).
  rewrite Hgroup in Hgroup'. injection Hgroup' as <- <-.
  eexists _, nested. split; [done|]. intros Hn.
  destruct (Hrun Hn) as (services & categories & root & Hrun' & Hs & Hcode & Hc).
  exists services, categories, root.
  split; [done|]. split; [|split; [done|]].
  - rewrite Hs. apply Forall_fmap_ext, Forall_forall. intros svc Hin.
    apply sort_Slice_elem_of in Hin. apply list_elem_of_filter in Hin as [_ Hin].
    destruct (collected_services_ascii cfg targets svc Hascii Hin) as [Hname _].
    unfold service_file.
    by rewrite ToLower_ascii by by apply ascii_only_TrimSuffix.
  - rewrite Hc. apply Forall_fmap_ext, Forall_forall. intros category Hin.
    unfold sort_Strings in Hin. apply sort_Slice_elem_of in Hin.
    apply list_elem_of_fmap in Hin as ([key bucket] & -> & Hin).
    apply elem_of_map_to_list in Hin. simpl.
    rewrite Hnested in Hin. apply bucket_of_Some in Hin as [_ Hne].
    assert (∃ svc, svc ∈ filter (in_category (RootPackage cfg) key)
                           (collected_services cfg targets)) as [svc Hsvc].
    { revert Hne.
      generalize (filter (in_category (RootPackage cfg) key)
                    (collected_services cfg targets)).
      intros [|svc rest] Hne; [done|]. exists svc. by left. }
    apply list_elem_of_filter in Hsvc as [[_ Hseg] Hsvc].
    destruct (collected_services_ascii cfg targets svc Hascii Hsvc) as [_ Hpkg].
    pose proof (ascii_only_Split _ "." Hpkg) as Hparts.
    rewrite Forall_forall in Hparts.
    unfold category_file. rewrite ToLower_ascii; [done|].
    apply Hparts. by eapply list_elem_of_lookup_2.
Qed.

Lemma Execute_files_witness :
  ∃ files,
    Execute (H:=model_lib) "package http"
      order_forward order_backward order_forward
      {[ "client" := "root:client"; "go_module_path" := "example.com/mod" ]}
      example_targets
    = Ok files ∧
    files.*1 = [ "client/http/client.gen.go"; "client/accounts.gen.go";
                 "client/investments.gen.go"; "client/client.gen.go" ].
Proof.
  destruct (Execute_files (H:=model_lib) "package http"
              order_forward order_backward order_forward
              {[ "client" := "root:client";
                 "go_module_path" := "example.com/mod" ]}
              example_targets example_cfg)
    as (topLevel & nested & Hgroup & Hrun).
  - apply (bool_decide_unpack _). vm_compute. exact I.
  - apply (bool_decide_unpack _). vm_compute. exact I.
  - vm_compute. reflexivity.
  - vm_compute in Hgroup. injection Hgroup as <- <-.
    destruct Hrun as (services & categories & root & -> & Hs & _ & Hc).
    { vm_compute. reflexivity. }
    eexists. split; [reflexivity|].
    rewrite !fmap_app, Hs, Hc. vm_compute. reflexivity.
Defined.

(** X20.  Whether a run succeeds.  With a configuration that parses and target
    files keyed by their names, the run returns its files exactly when the
    grouping has no empty category; with one it panics, and it never ends
    with an error. *)
Theorem Execute_outcome `{GoLib} (code : string) (o1 o2 o3 : MapOrder)
    (params : gmap string string) (targets : gmap string PgsFile)
    (cfg : ClientConfig) :
  map_Forall (λ key file, File_Name file = key) targets →
  parseClientConfig params = Ok cfg →
  ∃ topLevel nested,
    groupServices (collected_services cfg targets) (RootPackage cfg)
    = Ok (topLevel, nested) ∧
    is_Ok (Execute code o1 o2 o3 params targets)
    = bool_decide (nested !! "" = None) ∧
    is_Err (Execute code o1 o2 o3 params targets) = false.
Proof.
  intros Hkeys Hcfg.
  destruct (Execute_run code o1 o2 o3 params targets cfg Hkeys Hcfg)
    as (topLevel & nested & Hgroup & Hrun).
  exists topLevel, nested. split; [done|].
  case_bool_decide as Hn.
  - destruct (Hrun Hn) as (services & categories & root & -> & _). done.
  - clear Hrun. unfold Execute. rewrite Hcfg. simpl.
    rewrite sorted_files_order by done.
    unfold collected_services in Hgroup. rewrite Hgroup. simpl.
    destruct (topLevel_loop cfg
                [(filepath_Join [OutputSubdir cfg; "http"; "client.gen.go"], code)]
                (sort_Slice name_less topLevel))
      as (services & Hrun1 & _).
    match goal with
    | |- context [forEach ?body ?state ?l ≫= _] =>
        assert (forEach body state l
                = Ok ([(filepath_Join [OutputSubdir cfg; "http"; "client.gen.go"],
                        code)] ++ services)%list) as -> by exact Hrun1
    end.
    simpl. rewrite sorted_categories_order.
    assert ("" ∈ sort_Strings (map_to_list nested).*1) as Hin.
    { destruct (nested !! "") as [bucket|] eqn:E; [|done].
      unfold sort_Strings. rewrite sort_Slice_perm.
      apply list_elem_of_fmap. exists ("", bucket). split; [done|].
      by apply elem_of_map_to_list. }
    match goal with
    | |- context [forEach ?body ?state ?l ≫= _] =>
        pose proof (forEach_not_Ok body state l "" Hin) as Hnot;
        pose proof (forEach_no_Err body state l) as Hnoerr;
        revert Hnot Hnoerr; destruct (forEach body state l) as [[? ?]| |]
    end; intros Hnot Hnoerr.
    + exfalso. assert (true = false) as Hf; [|done]. apply Hnot.
      intros [artifacts nested0]. by simpl.
    + exfalso. assert (true = false) as Hf; [|done]. apply Hnoerr.
      intros [artifacts nested0] category. simpl.
      destruct (generateNestedServices_cases category
                  (sort_Slice name_less (default [] (nested0 !! category))) cfg)
        as (_ & Herr & _).
      by destruct (generateNestedServices category _ cfg).
    + done.
Qed.

Lemma Execute_outcome_witness :
  is_Ok (Execute (H:=model_lib) "package http"
           order_forward order_backward order_forward
           {[ "client" := "root:client"; "go_module_path" := "example.com/mod" ]}
           example_targets) = true.
Proof.
  destruct (Execute_outcome (H:=model_lib) "package http"
              order_forward order_backward order_forward
              {[ "client" := "root:client";
                 "go_module_path" := "example.com/mod" ]}
              example_targets example_cfg)
    as (topLevel & nested & Hgroup & -> & _).
  - apply (bool_decide_unpack _). vm_compute. exact I.
  - vm_compute. reflexivity.
  - vm_compute in Hgroup. injection Hgroup as <- <-. vm_compute. reflexivity.
Defined.

(** X21.  Two top-level services of which one has the name of the other followed
    by "Service" are written to the same file, and the root client gives
    them the same accessor name. *)
Theorem service_file_collision `{GoLib} (cfg : ClientConfig) (a b : Service) :
  HasSuffix (Service_Name a) "Service" = false →
  Service_Name b = Service_Name a ++ "Service" →
  service_file cfg a = service_file cfg b ∧
  TrimSuffix (Service_Name a) "Service" = TrimSuffix (Service_Name b) "Service" ∧
  Service_Name a ≠ Service_Name b.
Proof.
  intros Ha Hb.
  pose proof (proj1 (HasSuffix_false _ _) Ha) as Ha'.
  assert (TrimSuffix (Service_Name a) "Service"
          = TrimSuffix (Service_Name b) "Service") as E.
  { by rewrite Hb, TrimSuffix_app, TrimSuffix_none. }
  split; [|split; [done|]].
  - unfold service_file. by rewrite E.
  - rewrite Hb. intros E'. symmetry in E'. by apply append_cons_ne in E'.
Qed.

Lemma service_file_collision_witness :
  service_file example_cfg
    {| Service_Name := "Auth"; Service_Package := "root";
       Service_GoPackage := ""; Service_Methods := [] |}
  = service_file example_cfg
      {| Service_Name := "AuthService"; Service_Package := "root";
         Service_GoPackage := ""; Service_Methods := [] |}.
Proof.
  apply (service_file_collision (H:=model_lib) example_cfg
           {| Service_Name := "Auth"; Service_Package := "root";
              Service_GoPackage := ""; Service_Methods := [] |}
           {| Service_Name := "AuthService"; Service_Package := "root";
              Service_GoPackage := ""; Service_Methods := [] |});
    reflexivity.
Defined.
